(** * loadCsf: incremental reconciliation of CSF story files

    A shallow embedding of [lib/core/src/client/preview/loadCsf.ts].

    The module keeps a snapshot of the export objects registered by the last
    pass ([previousExports]), diffs it against the export objects of the
    current pass, unregisters the kinds of the removed files and registers
    the kinds and stories of the added files.

    Conventions of the embedding:
    - JavaScript values are the inductive [value]; objects, arrays and
      functions carry the address that is their reference identity;
    - property names are strings and an object's own properties are an
      association list in the order in which [Object.keys] lists them; an
      object that the module builds by assignment ([ordered_exports]) is kept
      in that order, array indices first; the properties read under a fixed
      name are own properties or absent, since no prototype of the realm has
      a member of any of these names, and the one read under a computed name
      ([namedExports[name]]) also finds the members of [Object.prototype];
    - the module-level variables form the record [state]; every call made to
      a collaborator (story store, client api, logger, console, HMR handle) is
      an [event] appended to the trace of the computation;
    - a thrown exception ends the computation, keeping the state and the
      trace reached so far. *)

From Stdlib Require Import List String Ascii ZArith Bool Arith Lia DecimalString.
Import ListNotations.
Open Scope string_scope.
Open Scope list_scope.
Set Warnings "-register-all".

(* ================================================================== *)
(** * JavaScript values *)
(* ================================================================== *)

Definition addr := nat.

Inductive value : Type :=
| VUndefined
| VNull
| VBool (b : bool)
| VNum (n : Z)
| VStr (s : string)
| VObj (a : addr) (props : list (string * value))
| VArr (a : addr) (items : list value)
| VFun (a : addr) (name : string) (props : list (string * value))
| VBuiltin (name : string).
    (* the built-in method [Object.prototype[name]] of the realm *)

(** The own enumerable properties of an object, in creation order. *)
Definition obj := list (string * value).

(** ToBoolean. *)
Definition truthy (v : value) : bool :=
  match v with
  | VUndefined | VNull => false
  | VBool b => b
  | VNum n => negb (n =? 0)%Z
  | VStr s => negb (s =? "")
  | VObj _ _ | VArr _ _ | VFun _ _ _ | VBuiltin _ => true
  end.

(** [a || b] *)
Definition js_or (a b : value) : value := if truthy a then a else b.

(** SameValueZero, the key comparison of [Map] and [Set]: primitives by
    value, objects by identity. *)
Definition same_value_zero (x y : value) : bool :=
  match x, y with
  | VUndefined, VUndefined => true
  | VNull, VNull => true
  | VBool a, VBool b => Bool.eqb a b
  | VNum a, VNum b => (a =? b)%Z
  | VStr a, VStr b => (a =? b)
  | VObj a _, VObj b _ => Nat.eqb a b
  | VArr a _, VArr b _ => Nat.eqb a b
  | VFun a _ _, VFun b _ _ => Nat.eqb a b
  | VBuiltin a, VBuiltin b => (a =? b)
  | _, _ => false
  end.

(** ** Objects as ordered property lists *)

Fixpoint obj_lookup (k : string) (o : obj) : option value :=
  match o with
  | [] => None
  | (k', v) :: rest => if k' =? k then Some v else obj_lookup k rest
  end.

(** [o[k]] on an object known to be a plain object. *)
Definition obj_get (o : obj) (k : string) : value :=
  match obj_lookup k o with
  | Some v => v
  | None => VUndefined
  end.

(** Defining [k] on an object listed in creation order, as the copies of
    a spread and of a rest pattern do: an existing key keeps its position, a
    new key goes last. *)
Fixpoint obj_set (o : obj) (k : string) (v : value) : obj :=
  match o with
  | [] => [(k, v)]
  | (k', v') :: rest =>
      if k' =? k then (k', v) :: rest else (k', v') :: obj_set rest k v
  end.

(** [Object.keys(o)] *)
Definition obj_keys (o : obj) : list string := map fst o.

Definition str_mem (k : string) (l : list string) : bool :=
  existsb (String.eqb k) l.

(** ** Array indices and the order of [Object.keys] *)

(** A property name is an array index when it is the canonical decimal
    form of an integer from 0 to 2^32 - 2: converting it to a number and
    back gives the same string. *)
Definition array_index (k : string) : option N :=
  match NilZero.uint_of_string k with
  | Some d =>
      let n := N.of_uint d in
      if (NilZero.string_of_uint (N.to_uint n) =? k) && (n <? 2 ^ 32 - 1)%N
      then Some n
      else None
  | None => None
  end.

Definition is_array_index (k : string) : bool :=
  match array_index k with Some _ => true | None => false end.

(** A new array index [i] goes before the first property that is not a
    smaller array index. *)
Fixpoint insert_index (o : obj) (i : N) (k : string) (v : value) : obj :=
  match o with
  | [] => [(k, v)]
  | (k', v') :: rest =>
      match array_index k' with
      | Some j =>
          if (j <? i)%N then (k', v') :: insert_index rest i k v
          else (k, v) :: o
      | None => (k, v) :: o
      end
  end.

(** [o[k] = v] on an object of the module's own making, kept in the order
    in which [Object.keys] lists it: the array indices in ascending order,
    then the other names in creation order. The name [__proto__] is not
    handled here: see [ordered_exports]. *)
Definition obj_put (o : obj) (k : string) (v : value) : obj :=
  if str_mem k (obj_keys o) then obj_set o k v
  else match array_index k with
       | Some i => insert_index o i k v
       | None => obj_set o k v
       end.

(** ** Object.prototype *)

(** The methods of [Object.prototype], which every ordinary object
    inherits; the realm's [Object.prototype] is taken as the language
    defines it. The accessor [__proto__] is not among them. *)
Definition object_prototype_methods : list string :=
  ["constructor"; "hasOwnProperty"; "isPrototypeOf"; "propertyIsEnumerable";
   "toLocaleString"; "toString"; "valueOf";
   "__defineGetter__"; "__defineSetter__"; "__lookupGetter__"; "__lookupSetter__"].

(** [o[k]] on an ordinary object, for a computed name [k] other than
    [__proto__]: the own property, else the inherited method. *)
Definition obj_get_inherited (o : obj) (k : string) : value :=
  match obj_lookup k o with
  | Some v => v
  | None => if str_mem k object_prototype_methods then VBuiltin k else VUndefined
  end.

Definition index_key (i : nat) : string :=
  NilZero.string_of_uint (Nat.to_uint i).

Fixpoint index_props (i : nat) (items : list value) : obj :=
  match items with
  | [] => []
  | v :: rest => (index_key i, v) :: index_props (S i) rest
  end.

Fixpoint string_chars (s : string) : list value :=
  match s with
  | EmptyString => []
  | String c rest => VStr (String c EmptyString) :: string_chars rest
  end.

(** The own enumerable properties that an object spread or a rest pattern
    copies from a value. *)
Definition own_props (v : value) : obj :=
  match v with
  | VObj _ props => props
  | VFun _ _ props => props
  | VArr _ items => index_props 0 items
  | VStr s => index_props 0 (string_chars s)
  | _ => []
  end.

(** CopyDataProperties: what [{...target, ...src}] and
    [const { excluded, ...rest } = src] do with [src]. *)
Definition copy_props (target : obj) (src : value) (excluded : list string) : obj :=
  fold_left
    (fun acc k =>
       if str_mem k excluded then acc
       else match obj_lookup k (own_props src) with
            | Some v => obj_set acc k v
            | None => acc
            end)
    (obj_keys (own_props src)) target.

(** [{ ...a, ...b }] *)
Definition spread2 (a b : value) : obj := copy_props (copy_props [] a []) b [].

(** ** Exceptions *)

Inductive error : Type :=
| DefaultExportWithoutTitle (meta : value)
    (* Error(`Unexpected default export without title: ${JSON.stringify(meta)}`) *)
| InvalidModule (m : string)
    (* Error(`Invalid module '${m}'. Did you forget to pass `module` ...`) *)
| TypeError (what : string)
| Thrown (v : value)
| ThrownSymbol (description : string).
    (* [throw Symbol(description)] *)

Inductive result (A : Type) : Type :=
| Ok (a : A)
| Err (e : error).
Arguments Ok {A} a.
Arguments Err {A} e.

(** [v.k] on an arbitrary value. *)
Definition get (v : value) (k : string) : result value :=
  match v with
  | VUndefined | VNull => Err (TypeError ("Cannot read property " ++ k))
  | VObj _ props => Ok (obj_get props k)
  | VFun _ name props =>
      match obj_lookup k props with
      | Some x => Ok x
      | None => Ok (if k =? "name" then VStr name else VUndefined)
      end
  | VBuiltin name => Ok (if k =? "name" then VStr name else VUndefined)
  | VBool _ | VNum _ | VStr _ | VArr _ _ => Ok VUndefined
  end.

(** [v?.k] *)
Definition get_opt (v : value) (k : string) : value :=
  match get v k with
  | Ok x => x
  | Err _ => VUndefined
  end.

(** [[...(v || [])]]: the elements spread. *)
Definition iterate_or_empty (v : value) : result (list value) :=
  if truthy v then
    match v with
    | VArr _ items => Ok items
    | VStr s => Ok (string_chars s)
    | _ => Err (TypeError "not iterable")
    end
  else Ok [].

(** IsCallable. *)
Definition callable (v : value) : bool :=
  match v with VFun _ _ _ | VBuiltin _ => true | _ => false end.

(* ================================================================== *)
(** * Module state, collaborator calls and the computation monad *)
(* ================================================================== *)

(** [Map<any, string>], in insertion order. *)
Definition exports_map := list (value * value).

Definition map_keys (m : exports_map) : list value := map fst m.

Definition map_has (m : exports_map) (k : value) : bool :=
  existsb (same_value_zero k) (map_keys m).

Fixpoint map_get (m : exports_map) (k : value) : value :=
  match m with
  | [] => VUndefined
  | (k', v) :: rest => if same_value_zero k k' then v else map_get rest k
  end.

Fixpoint map_set (m : exports_map) (k v : value) : exports_map :=
  match m with
  | [] => [(k, v)]
  | (k', v') :: rest =>
      if same_value_zero k k' then (k', v) :: rest else (k', v') :: map_set rest k v
  end.

(** [Set] of kind names. *)
Definition set_has (s : list value) (k : value) : bool :=
  existsb (same_value_zero k) s.

Definition set_add (s : list value) (k : value) : list value :=
  if set_has s k then s else s ++ [k].

(** The texts handed to [logger.warn]. *)
Inductive message : Type :=
| UnexpectedLoadError (filename : string) (e : error)
    (* `Unexpected error while loading ${filename}: ${error}` *)
| LoaderFunctionMisuse (received : value)
    (* `Loader function passed to 'configure' should return void or an array ...` *)
| DuplicateTitle (kindName : value)
    (* `Duplicate title: '${kindName}'` *)
| NoExportedStories (kindName : value)
    (* `Found a story file for "${kindName}" but no exported stories. ...` *)
| UnexpectedLoadedState.
    (* 'Unexpected loaded state. Did you call `load` twice?' *)

(** The three notices wrapped with [deprecate]. *)
Inductive deprecation : Type :=
| StoryAnnotationDeprecated
| DuplicateKindDeprecated
| ConfigureDeprecated.

(** The literal [{ ...parameters, __id, decorators, args, argTypes }]: the
    four named keys are written after the spread and shadow same-named keys
    of [parameters]. *)
Record StoryParams : Type := {
  sp_parameters : obj;
  sp_id : string;
  sp_decorators : list value;
  sp_args : obj;
  sp_argTypes : obj }.

Inductive event : Type :=
| LoggerWarn (m : message)
| LoggerDebug (story : value)
| ConsoleWarn (d : deprecation)
| RemoveStoryKind (title : value)
| StoriesOf (kindName : value)
| KindAddParameters (kind : value) (bag : obj)
| KindAddDecorator (kind : value) (decorator : value)
| KindAdd (kind : value) (name : value) (storyFn : value) (params : StoryParams)
| HotDispose
| HotAccept.

Record state : Type := {
  previousExports : exports_map;
  loaded : bool;
  storyAnnotationWarned : bool;
  duplicateKindWarned : bool;
  configureWarned : bool }.

Definition initial_state : state :=
  {| previousExports := []; loaded := false; storyAnnotationWarned := false;
     duplicateKindWarned := false; configureWarned := false |}.

Definition warned (d : deprecation) (s : state) : bool :=
  match d with
  | StoryAnnotationDeprecated => storyAnnotationWarned s
  | DuplicateKindDeprecated => duplicateKindWarned s
  | ConfigureDeprecated => configureWarned s
  end.

Definition set_warned (d : deprecation) (s : state) : state :=
  match d with
  | StoryAnnotationDeprecated =>
      {| previousExports := previousExports s; loaded := loaded s;
         storyAnnotationWarned := true;
         duplicateKindWarned := duplicateKindWarned s;
         configureWarned := configureWarned s |}
  | DuplicateKindDeprecated =>
      {| previousExports := previousExports s; loaded := loaded s;
         storyAnnotationWarned := storyAnnotationWarned s;
         duplicateKindWarned := true;
         configureWarned := configureWarned s |}
  | ConfigureDeprecated =>
      {| previousExports := previousExports s; loaded := loaded s;
         storyAnnotationWarned := storyAnnotationWarned s;
         duplicateKindWarned := duplicateKindWarned s;
         configureWarned := true |}
  end.

Definition set_previousExports (m : exports_map) (s : state) : state :=
  {| previousExports := m; loaded := loaded s;
     storyAnnotationWarned := storyAnnotationWarned s;
     duplicateKindWarned := duplicateKindWarned s;
     configureWarned := configureWarned s |}.

Definition set_loaded (b : bool) (s : state) : state :=
  {| previousExports := previousExports s; loaded := b;
     storyAnnotationWarned := storyAnnotationWarned s;
     duplicateKindWarned := duplicateKindWarned s;
     configureWarned := configureWarned s |}.

(** A computation yields the calls it made, the state it left and either a
    value or the exception that ended it. *)
Definition M (A : Type) : Type := state -> list event * state * result A.

Definition ret {A} (a : A) : M A := fun s => ([], s, Ok a).

Definition bind {A B} (c : M A) (k : A -> M B) : M B :=
  fun s =>
    match c s with
    | (ev, s1, Ok a) =>
        match k a s1 with
        | (ev', s2, r) => (ev ++ ev', s2, r)
        end
    | (ev, s1, Err e) => (ev, s1, Err e)
    end.

Definition throw {A} (e : error) : M A := fun s => ([], s, Err e).
Definition emit (e : event) : M unit := fun s => ([e], s, Ok tt).
Definition gets {A} (f : state -> A) : M A := fun s => ([], s, Ok (f s)).
Definition modify (f : state -> state) : M unit := fun s => ([], f s, Ok tt).

Definition lift {A} (r : result A) : M A :=
  match r with
  | Ok a => ret a
  | Err e => throw e
  end.

Declare Scope js_scope.
Delimit Scope js_scope with js.
Notation "x <- c ;; k" := (bind c (fun x => k))
  (at level 61, c at next level, right associativity) : js_scope.
Notation "c ;; k" := (bind c (fun _ => k))
  (at level 61, right associativity) : js_scope.
Open Scope js_scope.

Definition events_of {A} (o : list event * state * result A) : list event := fst (fst o).
Definition state_of {A} (o : list event * state * result A) : state := snd (fst o).
Definition result_of {A} (o : list event * state * result A) : result A := snd o.
Arguments events_of {A} !o /.
Arguments state_of {A} !o /.
Arguments result_of {A} !o /.

(** [l.forEach(f)] *)
Fixpoint for_each {A} (f : A -> M unit) (l : list A) : M unit :=
  match l with
  | [] => ret tt
  | x :: rest => f x ;; for_each f rest
  end.

(** [l.forEach] whose callback updates a variable of the enclosing scope. *)
Fixpoint for_each_acc {A B} (f : B -> A -> M B) (l : list A) (b : B) : M B :=
  match l with
  | [] => ret b
  | x :: rest => b1 <- f b x ;; for_each_acc f rest b1
  end.

(** [deprecate(fn, msg)] of util-deprecate: the notice goes to the console
    the first time the wrapper is called, [fn] runs on every call. *)
Definition deprecate (d : deprecation) (fn : M unit) : M unit :=
  w <- gets (warned d) ;;
  (if w then ret tt else emit (ConsoleWarn d) ;; modify (set_warned d)) ;;
  fn.

(* ================================================================== *)
(** * Imported functions *)
(* ================================================================== *)

(** What [loadCsf.ts] imports from [@storybook/csf], taken as total
    functions, and the code of the story files that the module runs:
    - [objectToString]: the string that the conversion of an object gives
      where it completes;
    - [customForEach f this]: the run of [this.forEach(callback)] when
      [this] is not an array and its [forEach] is the callable [f]: the values
      it hands to the callback, in order, and the exception it ends with, if
      any. *)
Class Externals : Type := {
  isExportStory : string -> value -> bool;
  storyNameFromExport : string -> string;
  toId : value -> string -> string;
  objectToString : value -> string;
  customForEach : value -> value -> list value * option error }.

(** A [require.context]: [req.keys()], [req(filename)] and the optional
    [req.resolve(filename)]. *)
Record RequireContext : Type := {
  rc_keys : list string;
  rc_require : string -> result value;
  rc_resolve : option (string -> result value) }.

(** The three shapes of [loadable]; a loader function is given by what a
    call of it returns or throws. *)
Inductive Loadable : Type :=
| LoadableArray (reqs : list RequireContext)
| LoadableContext (req : RequireContext)
| LoadableFunction (call : result value).

(** The [m] argument of [loadCsf]: a string (rejected), a module without
    [m.hot.dispose], or a module with it and its [m.hot.data]. *)
Inductive HotData : Type :=
| NoData                                   (* m.hot.data is undefined *)
| Data (previous : option exports_map).    (* data.previousExports, if set *)

Inductive NodeModule : Type :=
| ModuleString (s : string)
| ModuleCold
| ModuleHot (data : HotData).

(* ================================================================== *)
(** * loadStories *)
(* ================================================================== *)

Section LoadCsf.

Context {ext : Externals}.

(** ToPropertyKey of an element of [__namedExportsOrder]; the conversion of
    an element that is an object is taken to complete ([objectToString]). *)
Definition to_property_key (v : value) : string :=
  match v with
  | VStr s => s
  | VNum n => NilZero.string_of_int (Z.to_int n)
  | VBool true => "true"
  | VBool false => "false"
  | VUndefined => "undefined"
  | VNull => "null"
  | _ => objectToString v
  end.

(** ToString of a value inside a template literal. An object is converted
    by its [toString] method and, when that is not callable, by its
    [valueOf]; the inherited [Object.prototype.valueOf] returns the object
    itself, which is no string: the conversion of an object with neither
    method throws a TypeError. *)
Definition to_string (v : value) : result string :=
  match v with
  | VObj _ props | VFun _ _ props =>
      if match obj_lookup "toString" props with
         | Some f => callable f
         | None => true
         end
      then Ok (objectToString v)
      else if match obj_lookup "valueOf" props with
              | Some g => callable g
              | None => false
              end
           then Ok (objectToString v)
           else Err (TypeError "Cannot convert object to primitive value")
  | _ => Ok (to_property_key v)
  end.

(** [`${error}`]: the exception that converting a caught value to a string
    throws, if any. An [Error] prints through [Error.prototype.toString]; a
    Symbol cannot be converted. *)
Definition conversion_failure (e : error) : option error :=
  match e with
  | Thrown v =>
      match to_string v with
      | Ok _ => None
      | Err t => Some t
      end
  | ThrownSymbol _ => Some (TypeError "Cannot convert a Symbol value to a string")
  | DefaultExportWithoutTitle _ | InvalidModule _ | TypeError _ => None
  end.

(** ** Collecting the current exports (lines 39-75) *)

(** The catch block of line 60: the warning is logged once its text is
    built, and building the text can throw. *)
Definition warn_load_error (filename : string) (e : error) : M unit :=
  match conversion_failure e with
  | Some t => throw t
  | None => emit (LoggerWarn (UnexpectedLoadError filename e))
  end.

(** The body of [req.keys().forEach], with its try/catch. *)
Definition load_file (req : RequireContext) (currentExports : exports_map)
    (filename : string) : M exports_map :=
  match rc_require req filename with
  | Err e => warn_load_error filename e ;; ret currentExports
  | Ok fileExports =>
      match (match rc_resolve req with
             | Some resolve => resolve filename
             | None => Ok (VStr filename)
             end) with
      | Err e => warn_load_error filename e ;; ret currentExports
      | Ok path => ret (map_set currentExports fileExports path)
      end
  end.

Definition load_req (currentExports : exports_map) (req : RequireContext)
    : M exports_map :=
  for_each_acc (load_file req) (rc_keys req) currentExports.

(** [exported.every((obj) => obj.default != null)] *)
Fixpoint every_has_default (items : list value) : result bool :=
  match items with
  | [] => Ok true
  | x :: rest =>
      match get x "default" with
      | Err e => Err e
      | Ok VUndefined | Ok VNull => Ok false
      | Ok _ => every_has_default rest
      end
  end.

(** [new Map(exported.map((fileExports) => [fileExports, null]))] *)
Definition map_of_exported (items : list value) : exports_map :=
  fold_left (fun m fileExports => map_set m fileExports VNull) items [].

Definition load_exported (exported : value) : M exports_map :=
  match exported with
  | VArr _ items =>
      every <- lift (every_has_default items) ;;
      if every then ret (map_of_exported items)
      else emit (LoggerWarn (LoaderFunctionMisuse exported)) ;; ret []
  | _ =>
      if truthy exported
      then emit (LoggerWarn (LoaderFunctionMisuse exported)) ;; ret []
      else ret []
  end.

Definition collect_exports (loadable : Loadable) : M exports_map :=
  match loadable with
  | LoadableArray reqs => for_each_acc load_req reqs []
  | LoadableContext req => for_each_acc load_req [req] []
  | LoadableFunction call => exported <- lift call ;; load_exported exported
  end.

(** ** The diff (lines 77 and 84) *)

Definition removed (previous current : exports_map) : list value :=
  filter (fun exp => negb (map_has current exp)) (map_keys previous).

Definition added (previous current : exports_map) : list value :=
  filter (fun exp => negb (map_has previous exp)) (map_keys current).

(** The body of [removed.forEach] (lines 78-82). *)
Definition remove_unit (exp : value) : M unit :=
  d <- lift (get exp "default") ;;
  if truthy d then emit (RemoveStoryKind (get_opt d "title")) else ret tt.

(** ** Named exports and their order (lines 98-111) *)

Definition named_exports (fileExports : value) : obj :=
  copy_props [] fileExports ["default"; "__namedExportsOrder"].

(** Lines 105-110. [namedExports] is the rest object of line 98, an
    ordinary object: [namedExports[name]] finds its own property or, lacking
    one, the method of that name inherited from [Object.prototype].
    [exports[name] = ...] defines the property on [exports], which is listed
    in the order of [Object.keys]. For the name [__proto__] the assignment
    runs the setter inherited from [Object.prototype], which defines no
    property: the name never becomes a key of [exports]. *)
Definition ordered_exports (namedExports : obj) (names : list value) : obj :=
  fold_left
    (fun exports name =>
       let k := to_property_key name in
       if k =? "__proto__" then exports
       else if truthy (obj_get_inherited namedExports k)
            then obj_put exports k (obj_get_inherited namedExports k)
            else exports)
    names [].

Definition story_exports (fileExports : value) : obj :=
  match get_opt fileExports "__namedExportsOrder" with
  | VArr _ names => ordered_exports (named_exports fileExports) names
  | _ => named_exports fileExports
  end.

(** ** The kind (lines 113-147) *)

(** [(v || []).forEach(callback)]: the values handed to the callback, in
    order, and the exception that ends the call, if any. An array runs
    [Array.prototype.forEach]; any other truthy value runs the [forEach] it
    has when that is callable, and the call throws a TypeError when it is
    not. *)
Definition for_each_visits (v : value) : list value * option error :=
  if truthy v then
    match v with
    | VArr _ items => (items, None)
    | _ =>
        let f := get_opt v "forEach" in
        if callable f then customForEach f v
        else ([], Some (TypeError "forEach is not a function"))
    end
  else ([], None).

(** The values visited by a [forEach] that returns. *)
Definition for_each_or_empty (v : value) : result (list value) :=
  match for_each_visits v with
  | (visited, None) => Ok visited
  | (_, Some e) => Err e
  end.

(** The literal handed to [kind.addParameters]. *)
Definition kind_parameters (framework : string) (fileName : value) (meta : value) : obj :=
  let bag :=
    [("framework", VStr framework);
     ("component", get_opt meta "component");
     ("subcomponents", get_opt meta "subcomponents");
     ("fileName", fileName)] in
  let bag := copy_props bag (get_opt meta "parameters") [] in
  let bag := obj_set bag "args" (get_opt meta "args") in
  obj_set bag "argTypes" (get_opt meta "argTypes").

Definition duplicateKindWarning (kindName : value) : M unit :=
  deprecate DuplicateKindDeprecated (emit (LoggerWarn (DuplicateTitle kindName))).

Definition deprecatedStoryAnnotationWarning : M unit :=
  deprecate StoryAnnotationDeprecated (ret tt).

Definition configureDeprecationWarning : M unit :=
  deprecate ConfigureDeprecated (ret tt).

(** ** One story (lines 160-187) *)

(** [const { storyName = story?.name } = storyFn] *)
Definition story_name (storyName story : value) : value :=
  match storyName with
  | VUndefined => get_opt story "name"
  | _ => storyName
  end.

(** [storyName || exportName], the first argument of [kind.add]. *)
Definition display_name (storyFn story : value) (exportName : string) : value :=
  js_or (story_name (get_opt storyFn "storyName") story) (VStr exportName).

(** Lines 168-171 and 179-185: the merged annotations, as [storyParams]. *)
Definition story_params (kindName meta storyFn story : value)
    (own legacy : list value) (exportName : string) : StoryParams :=
  {| sp_parameters := spread2 (get_opt story "parameters") (get_opt storyFn "parameters");
     sp_id := toId (js_or (get_opt meta "id") kindName) exportName;
     sp_decorators := own ++ legacy;
     sp_args := spread2 (get_opt story "args") (get_opt storyFn "args");
     sp_argTypes := spread2 (get_opt story "argTypes") (get_opt storyFn "argTypes") |}.

(** The body of [storyExports.forEach]. *)
Definition register_story (kindName meta : value) (exports : obj) (key : string)
    : M unit :=
  if isExportStory key meta then
    let storyFn := obj_get exports key in
    story <- lift (get storyFn "story") ;;
    own <- lift (iterate_or_empty (get_opt storyFn "decorators")) ;;
    legacy <- lift (iterate_or_empty (get_opt story "decorators")) ;;
    (if truthy story
     then emit (LoggerDebug story) ;; deprecatedStoryAnnotationWarning
     else ret tt) ;;
    let exportName := storyNameFromExport key in
    emit (KindAdd kindName (display_name storyFn story exportName) storyFn
                  (story_params kindName meta storyFn story own legacy exportName))
  else ret tt.

(** ** One added file: the body of [added.forEach] (lines 86-189) *)

(** Lines 131-188: the kind, its parameters and decorators, its stories. *)
Definition register_kind (framework : string) (fileName : value)
    (meta kindName : value) (exports : obj) : M unit :=
  emit (StoriesOf kindName) ;;
  emit (KindAddParameters kindName (kind_parameters framework fileName meta)) ;;
  let visit := for_each_visits (get_opt meta "decorators") in
  for_each (fun decorator => emit (KindAddDecorator kindName decorator))
           (fst visit) ;;
  match snd visit with
  | Some e => throw e
  | None => ret tt
  end ;;
  let storyExports := obj_keys exports in
  match storyExports with
  | [] => emit (LoggerWarn (NoExportedStories kindName))
  | _ => for_each (register_story kindName meta exports) storyExports
  end.

(** Lines 124-126. *)
Definition duplicate_step (loadedKinds : list value) (kindName : value) : M unit :=
  if set_has loadedKinds kindName then duplicateKindWarning kindName else ret tt.

Definition load_unit (framework : string) (currentExports : exports_map)
    (loadedKinds : list value) (fileExports : value) : M (list value) :=
  meta <- lift (get fileExports "default") ;;
  if negb (truthy meta) then ret loadedKinds
  else
    let kindName := get_opt meta "title" in
    if negb (truthy kindName) then throw (DefaultExportWithoutTitle meta)
    else
      let exports := story_exports fileExports in
      duplicate_step loadedKinds kindName ;;
      let loadedKinds := set_add loadedKinds kindName in
      register_kind framework (map_get currentExports fileExports)
                    meta kindName exports ;;
      ret loadedKinds.

(** ** One pass: the function returned by [loadStories] *)

(** Lines 77-189: the removals, then the additions, for a given snapshot
    and a given set of current exports. *)
Definition diff_and_register (framework : string)
    (previous currentExports : exports_map) : M (list value) :=
  for_each remove_unit (removed previous currentExports) ;;
  for_each_acc (load_unit framework currentExports)
               (added previous currentExports) [].

(** Lines 77-190: the same against the module's snapshot, which the last
    statement replaces. *)
Definition reconcile (framework : string) (currentExports : exports_map) : M unit :=
  previous <- gets previousExports ;;
  diff_and_register framework previous currentExports ;;
  modify (set_previousExports currentExports).

Definition loadStories (loadable : Loadable) (framework : string) : M unit :=
  currentExports <- collect_exports loadable ;;
  reconcile framework currentExports.

(* ================================================================== *)
(** * loadCsf *)
(* ================================================================== *)

(** Modelled from the spec: [ConfigApi.configure] of [@storybook/client-api]
    (config_api.ts is not among the sources). The spec only says that the
    entrypoint delegates the pass to it, so it runs the loader once. *)
Definition configure (loader : M unit) (m : NodeModule) : M unit := loader.

(** [({ previousExports = new Map() } = m.hot.data || {})] *)
Definition restored_exports (data : HotData) : exports_map :=
  match data with
  | Data (Some previous) => previous
  | _ => []
  end.

(** The callback handed to [m.hot.dispose]: run by the HMR runtime before
    the module is replaced; returns [data.previousExports]. *)
Definition dispose_callback (s : state) : state * HotData :=
  (set_loaded false s, Data (Some (previousExports s))).

Definition loadCsf (framework : string) (loadable : Loadable) (m : NodeModule)
    (showDeprecationWarning : bool) : M unit :=
  (if showDeprecationWarning then configureDeprecationWarning else ret tt) ;;
  match m with
  | ModuleString s => throw (InvalidModule s)
  | _ =>
      match m with
      | ModuleHot data =>
          modify (set_previousExports (restored_exports data)) ;;
          emit HotDispose ;;
          emit HotAccept
      | _ => ret tt
      end ;;
      wasLoaded <- gets loaded ;;
      (if wasLoaded then emit (LoggerWarn UnexpectedLoadedState) else ret tt) ;;
      modify (set_loaded true) ;;
      configure (loadStories loadable framework) m
  end.

End LoadCsf.

(* ================================================================== *)
(** * Vocabulary of the specification *)
(* ================================================================== *)

Definition count_events (p : event -> bool) (ev : list event) : nat :=
  List.length (filter p ev).

Definition is_remove_call (e : event) : bool :=
  match e with RemoveStoryKind _ => true | _ => false end.

Definition is_kind_add (e : event) : bool :=
  match e with KindAdd _ _ _ _ => true | _ => false end.

Definition is_duplicate_title_warning (e : event) : bool :=
  match e with LoggerWarn (DuplicateTitle _) => true | _ => false end.

Definition is_duplicate_notice (e : event) : bool :=
  match e with ConsoleWarn DuplicateKindDeprecated => true | _ => false end.

Definition is_no_stories_warning (e : event) : bool :=
  match e with LoggerWarn (NoExportedStories _) => true | _ => false end.

Definition is_repeated_load_warning (e : event) : bool :=
  match e with LoggerWarn UnexpectedLoadedState => true | _ => false end.

(** The calls a pass can make outside the entrypoint's own prologue. *)
Definition pass_event (e : event) : Prop :=
  match e with
  | HotDispose | HotAccept | ConsoleWarn _ | LoggerWarn UnexpectedLoadedState => False
  | _ => True
  end.

(** The calls the registration of one story can make. *)
Definition story_event (e : event) : Prop :=
  match e with
  | KindAdd _ _ _ _ | LoggerDebug _ => True
  | _ => False
  end.

(** The calls the registration of one kind can make. *)
Definition kind_event (e : event) : Prop :=
  match e with
  | StoriesOf _ | KindAddParameters _ _ | KindAddDecorator _ _ | KindAdd _ _ _ _
  | LoggerDebug _ | LoggerWarn (NoExportedStories _) => True
  | _ => False
  end.

(** The calls the registration of one added file can make. *)
Definition add_event (e : event) : Prop :=
  match e with
  | StoriesOf _ | KindAddParameters _ _ | KindAddDecorator _ _ | KindAdd _ _ _ _
  | LoggerDebug _ | LoggerWarn (DuplicateTitle _) | LoggerWarn (NoExportedStories _) => True
  | _ => False
  end.

(** A property of (state before, calls made, state after) that every
    computation [c] maintains. *)
Definition respects (Inv : state -> list event -> state -> Prop) {A} (c : M A) : Prop :=
  forall s, Inv s (events_of (c s)) (state_of (c s)).

(** The snapshot and the current set with the unchanged units erased. *)
Definition only_removed (previous current : exports_map) : exports_map :=
  filter (fun kv => negb (map_has current (fst kv))) previous.

Definition only_added (previous current : exports_map) : exports_map :=
  filter (fun kv => negb (map_has previous (fst kv))) current.

(** The module has a default export: the test [exp.default] of the source. *)
Definition has_default (exp : value) : bool := truthy (get_opt exp "default").

(** The default export has a title: the test [fileExports.default.title]. *)
Definition has_title (meta : value) : bool := truthy (get_opt meta "title").

(** What a [deprecate] wrapper prints when called in state [s], and the
    state it leaves. *)
Definition notice_events (d : deprecation) (s : state) : list event :=
  if warned d s then [] else [ConsoleWarn d].

Definition after_notice (d : deprecation) (s : state) : state :=
  if warned d s then s else set_warned d s.

(** [null] and [undefined], whose properties cannot be read. *)
Definition nullish (v : value) : bool :=
  match v with VUndefined | VNull => true | _ => false end.

(** The store calls owed to one removed unit. *)
Definition removal_calls (exp : value) : list event :=
  if has_default exp
  then [RemoveStoryKind (get_opt (get_opt exp "default") "title")]
  else [].

(** The keys of a list in order of first occurrence. *)
Fixpoint dedup_from (seen l : list string) : list string :=
  match l with
  | [] => []
  | x :: rest =>
      if str_mem x seen then dedup_from seen rest
      else x :: dedup_from (x :: seen) rest
  end.


(** The order of [Object.keys]: every array index is smaller than the array
    indices after it, and no array index comes after another name. *)
Definition index_below (i : N) (k : string) : bool :=
  match array_index k with Some j => (i <? j)%N | None => true end.

Fixpoint keys_in_order (l : list string) : bool :=
  match l with
  | [] => true
  | k :: rest =>
      match array_index k with
      | Some i => forallb (index_below i) rest && keys_in_order rest
      | None => forallb (fun k' => negb (is_array_index k')) rest
      end
  end.


(** The title an added unit declares, when it is registered at all. *)
Definition declared_title (exp : value) : option value :=
  if has_default exp then Some (get_opt (get_opt exp "default") "title") else None.

(** How many units of a list declare a title that an earlier unit of the
    list (or [seen]) declared already. *)
Fixpoint duplicate_count (seen : list value) (units : list value) : nat :=
  match units with
  | [] => 0
  | u :: rest =>
      match declared_title u with
      | None => duplicate_count seen rest
      | Some t =>
          (if set_has seen t then 1 else 0) + duplicate_count (set_add seen t) rest
      end
  end.

(** The life of the process: calls of the entrypoint, interleaved with
    reload teardowns, which run the registered dispose callback. *)
Inductive action : Type :=
| Load {ext : Externals} (framework : string) (loadable : Loadable)
       (m : NodeModule) (showDeprecationWarning : bool)
| Teardown.

Definition registers_dispose (m : NodeModule) : bool :=
  match m with ModuleHot _ => true | _ => false end.

Fixpoint run_lifetime (acts : list action) (registered : bool) (s : state)
    : list event * state :=
  match acts with
  | [] => ([], s)
  | Load framework loadable m show :: rest =>
      let o := loadCsf framework loadable m show s in
      let (ev, s') := run_lifetime rest (registered || registers_dispose m) (state_of o) in
      (events_of o ++ ev, s')
  | Teardown :: rest =>
      run_lifetime rest false (if registered then fst (dispose_callback s) else s)
  end.

Definition registers_kind (title : string) (e : event) : bool :=
  match e with StoriesOf (VStr t) => t =? title | _ => false end.

(** The entrypoint rejects a module argument that is a string. *)
Definition rejected_module (m : NodeModule) : bool :=
  match m with ModuleString _ => true | _ => false end.

(** What the entrypoint does before it hands the pass to [configure]
    (lines 220-242): the calls it makes and the state it leaves. *)
Definition prologue_events (m : NodeModule) (show : bool) (s : state) : list event :=
  (if show then notice_events ConfigureDeprecated s else [])
  ++ (match m with ModuleHot _ => [HotDispose; HotAccept] | _ => [] end)
  ++ (if loaded s then [LoggerWarn UnexpectedLoadedState] else []).

Definition prologue_state (m : NodeModule) (show : bool) (s : state) : state :=
  let s1 := if show then after_notice ConfigureDeprecated s else s in
  let s2 := match m with
            | ModuleHot data => set_previousExports (restored_exports data) s1
            | _ => s1
            end in
  set_loaded true s2.

Section Stated.

Context {ext : Externals}.

(** The calls that set up a kind: [storiesOf], [addParameters] and one
    [addDecorator] per declared decorator. *)
Definition kind_setup (framework : string) (fileName meta kindName : value)
    (ds : list value) : list event :=
  StoriesOf kindName
  :: KindAddParameters kindName (kind_parameters framework fileName meta)
  :: map (KindAddDecorator kindName) ds.

(** The named exports that the recognition predicate accepts. *)
Definition recognized_entries (fileExports : value) : list string :=
  filter (fun key => isExportStory key (get_opt fileExports "default"))
         (obj_keys (story_exports fileExports)).

(** The display name in the words of the specification: the explicit name
    when one is supplied, else the legacy name when present, else the slug.
    [supplied] is the reading of "supplied" and "present". *)
Definition stated_display_name (supplied : value -> bool) (storyFn : value)
    (key : string) : value :=
  if supplied (get_opt storyFn "storyName") then get_opt storyFn "storyName"
  else if supplied (get_opt (get_opt storyFn "story") "name")
       then get_opt (get_opt storyFn "story") "name"
       else VStr (storyNameFromExport key).

Definition is_defined (v : value) : bool :=
  match v with VUndefined => false | _ => true end.

End Stated.

(* ================================================================== *)
(** * Sample story files *)
(* ================================================================== *)

(** [excludeStories], when it is an array of names. *)
Definition excluded_names (meta : value) : list string :=
  match get_opt meta "excludeStories" with
  | VArr _ items =>
      flat_map (fun v => match v with VStr name => [name] | _ => [] end) items
  | _ => []
  end.

(** An instance in the manner of [@storybook/csf]: an export is a story
    unless it is [__esModule] or listed in [excludeStories]; ids join the
    kind and the story name with two dashes. A [forEach] method of a story
    file's own visits the [items] of its object. *)
Definition sample_csf : Externals :=
  {| isExportStory := fun key meta =>
       negb (key =? "__esModule") && negb (str_mem key (excluded_names meta));
     storyNameFromExport := fun key => key;
     toId := fun kind name =>
       ((match kind with VStr k => k | _ => "" end) ++ "--" ++ name)%string;
     objectToString := fun _ => "[object Object]";
     customForEach := fun _ this =>
       match get_opt this "items" with
       | VArr _ items => (items, None)
       | _ => ([], None)
       end |}.

Definition fn (a : addr) (name : string) : value := VFun a name [].

(** A file with title "Button" and one story; the address tells files apart. *)
Definition button_file (a : addr) : value :=
  VObj a [("default", VObj (a + 1) [("title", VStr "Button")]);
          ("Story", fn (a + 2) "Story")].

(** Exports a, b and c, with the order hint [c, a]. *)
Definition abc_file : value :=
  VObj 1 [("default", VObj 10 [("title", VStr "Button")]);
          ("a", fn 11 "a"); ("b", fn 12 "b"); ("c", fn 13 "c");
          ("__namedExportsOrder", VArr 14 [VStr "c"; VStr "a"])].

(** Exports "1" and b, with the order hint [b, 1]. *)
Definition numbered_file : value :=
  VObj 110 [("1", fn 112 "one");
            ("default", VObj 111 [("title", VStr "Steps")]);
            ("b", fn 113 "b");
            ("__namedExportsOrder", VArr 114 [VStr "b"; VStr "1"])].

(** One export, a, with an order hint that also lists [toString]. *)
Definition inherited_file : value :=
  VObj 120 [("default", VObj 121 [("title", VStr "Inherited")]);
            ("a", fn 122 "a");
            ("__namedExportsOrder", VArr 123 [VStr "a"; VStr "toString"])].

(** A file whose only named export is excluded from the stories. *)
Definition helper_meta : value :=
  VObj 20 [("title", VStr "Form"); ("excludeStories", VArr 21 [VStr "helper"])].

Definition helper_file : value :=
  VObj 2 [("default", helper_meta); ("helper", fn 22 "helper")].

(** A story with an empty [storyName] and a legacy [story.name]. *)
Definition card_meta : value := VObj 30 [("title", VStr "Card")].

Definition unnamed_story : value :=
  VFun 31 "Primary"
    [("storyName", VStr ""); ("story", VObj 32 [("name", VStr "Legacy")])].

(** A story annotated in both styles. *)
Definition both_styles_story : value :=
  VFun 41 "Basic"
    [("parameters", VObj 42 [("foo", VNum 1)]);
     ("decorators", VArr 43 [fn 44 "own"]);
     ("story", VObj 45 [("parameters", VObj 46 [("foo", VNum 2); ("bar", VNum 3)]);
                        ("decorators", VArr 47 [fn 48 "legacy"])])].

(** A default export without title, and an old-style file without default. *)
Definition untitled_meta : value := VObj 61 [("component", fn 62 "Widget")].
Definition untitled_file : value := VObj 60 [("default", untitled_meta)].
Definition old_style_file : value := VObj 70 [("setup", fn 71 "setup")].

(** A kind whose own parameters name [framework] and [args]. *)
Definition panel_meta : value :=
  VObj 81 [("title", VStr "Panel");
           ("parameters", VObj 82 [("framework", VStr "custom"); ("args", VNum 7)]);
           ("args", VObj 83 [("size", VNum 2)])].
Definition panel_file : value := VObj 80 [("default", panel_meta)].

(** Snapshots and current sets over these files. *)
Definition exports_AC : exports_map :=
  [(button_file 100, VStr "./A.js"); (button_file 300, VStr "./C.js")].
Definition exports_AB : exports_map :=
  [(button_file 100, VStr "./A.js"); (button_file 200, VStr "./B.js")].
Definition exports_ABC : exports_map :=
  [(button_file 100, VStr "./A.js"); (button_file 200, VStr "./B.js");
   (button_file 300, VStr "./C.js")].
Definition exports_with_untitled : exports_map :=
  [(button_file 100, VStr "./A.js"); (untitled_file, VStr "./bad.js");
   (button_file 200, VStr "./B.js")].

(** A [require.context] over the given files. *)
Definition context_of (files : list (string * value)) : RequireContext :=
  {| rc_keys := map fst files;
     rc_require := fun filename =>
       match obj_lookup filename files with
       | Some exports => Ok exports
       | None => Err (Thrown (VStr "Cannot find module"))
       end;
     rc_resolve := None |}.

Definition files_A : list (string * value) := [("./A.js", button_file 100)].
Definition files_AB : list (string * value) :=
  [("./A.js", button_file 100); ("./B.js", button_file 200)].
Definition files_ABC : list (string * value) :=
  [("./A.js", button_file 100); ("./B.js", button_file 200);
   ("./C.js", button_file 300)].

Definition files_A_snapshot : exports_map := [(button_file 100, VStr "./A.js")].

(** File A is loaded; after a hot reload file B, with the same title, is
    loaded next to it. *)
Definition lifetime_across_passes : list action :=
  [@Load sample_csf "react" (LoadableContext (context_of files_A))
         (ModuleHot NoData) true;
   Teardown;
   @Load sample_csf "react" (LoadableContext (context_of files_AB))
         (ModuleHot (Data (Some files_A_snapshot))) true].

(** Three files with the same title are loaded in one pass. *)
Definition lifetime_one_pass : list action :=
  [@Load sample_csf "react" (LoadableContext (context_of files_ABC))
         (ModuleHot NoData) true].

(* ================================================================== *)
(** * Vocabulary for the loading phase and the life of the module *)
(* ================================================================== *)

(** What loading one file of a context yields: its exports and its path, or
    the exception that the try/catch of lines 51-61 turns into a warning. *)
Definition file_outcome (req : RequireContext) (filename : string)
    : result (value * value) :=
  match rc_require req filename with
  | Err e => Err e
  | Ok fileExports =>
      match (match rc_resolve req with
             | Some resolve => resolve filename
             | None => Ok (VStr filename)
             end) with
      | Err e => Err e
      | Ok path => Ok (fileExports, path)
      end
  end.

(** The files of the contexts, each with its context, in the order in which
    they are loaded: contexts in order, files in the order of [keys()]. *)
Definition files_of (reqs : list RequireContext) : list (RequireContext * string) :=
  flat_map (fun req => map (pair req) (rc_keys req)) reqs.

(** The files of a list that load, with their exports and paths, in order. *)
Definition file_entries (files : list (RequireContext * string))
    : list (value * value) :=
  flat_map (fun rf =>
              match file_outcome (fst rf) (snd rf) with
              | Ok entry => [entry]
              | Err _ => []
              end) files.


(** The warnings owed to the files that fail to load, in order. *)
Definition file_warnings (files : list (RequireContext * string)) : list event :=
  flat_map (fun rf =>
              match file_outcome (fst rf) (snd rf) with
              | Ok _ => []
              | Err e => [LoggerWarn (UnexpectedLoadError (snd rf) e)]
              end) files.

(** The exception with which the catch block of a file ends, if any: the
    file fails to load and its error cannot be converted to a string. *)
Definition handler_failure {ext : Externals} (rf : RequireContext * string)
    : option error :=
  match file_outcome (fst rf) (snd rf) with
  | Ok _ => None
  | Err e => conversion_failure e
  end.

(** The first such exception among the files of a list, and the files
    before it (all the files when there is none). *)
Fixpoint loading_failure {ext : Externals} (files : list (RequireContext * string))
    : option error :=
  match files with
  | [] => None
  | rf :: rest =>
      match handler_failure rf with
      | Some t => Some t
      | None => loading_failure rest
      end
  end.

Fixpoint handled {ext : Externals} (files : list (RequireContext * string))
    : list (RequireContext * string) :=
  match files with
  | [] => []
  | rf :: rest =>
      match handler_failure rf with
      | Some _ => []
      | None => rf :: handled rest
      end
  end.

(** Successive [Map.set] calls. *)
Definition map_of_entries (entries : list (value * value)) (m : exports_map)
    : exports_map :=
  fold_left (fun m entry => map_set m (fst entry) (snd entry)) entries m.

(** No two keys are the same value (SameValueZero). *)
Fixpoint distinct_keys (l : list value) : bool :=
  match l with
  | [] => true
  | x :: rest => negb (existsb (same_value_zero x) rest) && distinct_keys rest
  end.


(** The calls the loading phase can make. *)
Definition collect_event (e : event) : Prop :=
  match e with
  | LoggerWarn (UnexpectedLoadError _ _) | LoggerWarn (LoaderFunctionMisuse _) => True
  | _ => False
  end.

(** The calls made to the story store and the client api. *)
Definition is_store_call (e : event) : bool :=
  match e with
  | RemoveStoryKind _ | StoriesOf _ | KindAddParameters _ _
  | KindAddDecorator _ _ | KindAdd _ _ _ _ => true
  | _ => false
  end.

(** [obj.default != null] *)
Definition has_nonnull_default (x : value) : bool :=
  negb (nullish (get_opt x "default")).

Definition deprecation_eqb (d d' : deprecation) : bool :=
  match d, d' with
  | StoryAnnotationDeprecated, StoryAnnotationDeprecated
  | DuplicateKindDeprecated, DuplicateKindDeprecated
  | ConfigureDeprecated, ConfigureDeprecated => true
  | _, _ => false
  end.

Definition is_notice (d : deprecation) (e : event) : bool :=
  match e with ConsoleWarn d' => deprecation_eqb d d' | _ => false end.

(** The titles handed to [storyStore.removeStoryKind] and to
    [clientApi.storiesOf], in call order. *)
Definition kinds_removed (ev : list event) : list value :=
  flat_map (fun e => match e with RemoveStoryKind t => [t] | _ => [] end) ev.

Definition kinds_created (ev : list event) : list value :=
  flat_map (fun e => match e with StoriesOf t => [t] | _ => [] end) ev.

Definition is_stories_of (e : event) : bool :=
  match e with StoriesOf _ => true | _ => false end.

(** The kind of a unit: the title of its default export, when it has one
    (the test [exp.default] of lines 79 and 88). *)
Definition kind_of_unit (exp : value) : list value :=
  if has_default exp then [get_opt (get_opt exp "default") "title"] else [].

(** The snapshot against which an invocation of the entrypoint runs its
    pass: the one restored from [m.hot.data] for a hot module, the one the
    module holds otherwise. *)
Definition snapshot_for (m : NodeModule) (s : state) : exports_map :=
  match m with
  | ModuleHot data => restored_exports data
  | _ => previousExports s
  end.

(** The story functions handed to [kind.add], in call order. *)
Definition added_stories (ev : list event) : list value :=
  flat_map (fun e => match e with KindAdd _ _ storyFn _ => [storyFn] | _ => [] end) ev.

(** A [forEach] method of a story file's own, and a default export whose
    [decorators] is an object with that method. *)
Definition visit_items : value := VFun 131 "forEach" [].
Definition collection_meta : value :=
  VObj 132 [("title", VStr "Collected");
            ("decorators",
             VObj 133 [("items", VArr 134 [fn 135 "first"; fn 136 "second"]);
                       ("forEach", visit_items)])].
Definition collection_file : value :=
  VObj 130 [("default", collection_meta); ("Story", fn 137 "Story")].


(** Files with titles of their own. *)
Definition titled_file (a : addr) (title : string) : value :=
  VObj a [("default", VObj (a + 1) [("title", VStr title)]);
          ("Story", fn (a + 2) "Story")].
Definition exports_alpha_gamma : exports_map :=
  [(titled_file 400 "Alpha", VStr "./Alpha.js");
   (titled_file 420 "Gamma", VStr "./Gamma.js")].
Definition exports_alpha_beta : exports_map :=
  [(titled_file 400 "Alpha", VStr "./Alpha.js");
   (titled_file 410 "Beta", VStr "./Beta.js")].
Definition files_alpha : list (string * value) :=
  [("./Alpha.js", titled_file 400 "Alpha")].
Definition files_alpha_beta : list (string * value) :=
  [("./Alpha.js", titled_file 400 "Alpha"); ("./Beta.js", titled_file 410 "Beta")].


Definition aliased_files : list (string * value) :=
  [("./A.js", button_file 100); ("./again.js", button_file 100)].

(** Exports of which the second is [null]. *)
Definition exports_with_null : obj :=
  [("Fine", fn 91 "Fine"); ("Broken", VNull); ("Later", fn 92 "Later")].

(** A default export whose [decorators] is an object instead of an array. *)
Definition styled_meta : value :=
  VObj 95 [("title", VStr "Styled"); ("decorators", VObj 96 [])].
Definition styled_file : value :=
  VObj 94 [("default", styled_meta); ("Story", fn 97 "Story")].

(* ================================================================== *)
(** * Properties of objects and maps *)
(* ================================================================== *)

Lemma obj_lookup_set (o : obj) (k k' : string) (v : value) :
  obj_lookup k (obj_set o k' v) = if k' =? k then Some v else obj_lookup k o.
Proof.
  induction o as [|[k0 v0] o IH]; simpl.
  - reflexivity.
  - destruct (k0 =? k') eqn:E0; simpl.
    + apply String.eqb_eq in E0. subst k0.
      destruct (k' =? k); reflexivity.
    + rewrite IH. destruct (k0 =? k) eqn:E1; [|reflexivity].
      apply String.eqb_eq in E1. subst k0. now rewrite String.eqb_sym, E0.
Qed.


Lemma str_mem_lookup (k : string) (o : obj) :
  str_mem k (obj_keys o) = match obj_lookup k o with Some _ => true | None => false end.
Proof.
  unfold str_mem, obj_keys.
  induction o as [|[k0 v0] o IH]; simpl.
  - reflexivity.
  - rewrite (String.eqb_sym k k0). destruct (k0 =? k); simpl; [reflexivity | exact IH].
Qed.

Lemma str_mem_app (k : string) (l1 l2 : list string) :
  str_mem k (l1 ++ l2) = str_mem k l1 || str_mem k l2.
Proof. unfold str_mem. apply existsb_app. Qed.

(** Copying the properties named [ks] of [src], outside [excluded]. *)
Lemma copy_fold_lookup (src : obj) (excluded ks : list string) (target : obj) (k : string) :
  obj_lookup k
    (fold_left
       (fun acc k0 =>
          if str_mem k0 excluded then acc
          else match obj_lookup k0 src with
               | Some v => obj_set acc k0 v
               | None => acc
               end) ks target) =
  if str_mem k ks && negb (str_mem k excluded)
  then match obj_lookup k src with
       | Some v => Some v
       | None => obj_lookup k target
       end
  else obj_lookup k target.
Proof.
  revert target. induction ks as [|k0 ks IH]; intros target; simpl.
  - reflexivity.
  - rewrite IH. clear IH.
    destruct (k =? k0) eqn:E.
    + apply String.eqb_eq in E. subst k0. simpl.
      destruct (str_mem k excluded) eqn:Ex; simpl.
      * now rewrite Bool.andb_false_r.
      * rewrite Bool.andb_true_r.
        destruct (obj_lookup k src) eqn:L.
        -- rewrite obj_lookup_set, String.eqb_refl.
           now destruct (str_mem k ks).
        -- now destruct (str_mem k ks).
    + simpl.
      assert (Hsame : obj_lookup k
                (if str_mem k0 excluded then target
                 else match obj_lookup k0 src with
                      | Some v => obj_set target k0 v
                      | None => target
                      end) = obj_lookup k target).
      { destruct (str_mem k0 excluded); [reflexivity|].
        destruct (obj_lookup k0 src); [|reflexivity].
        rewrite obj_lookup_set, (String.eqb_sym k0 k), E. reflexivity. }
      rewrite Hsame. reflexivity.
Qed.

Lemma copy_props_lookup (target : obj) (src : value) (excluded : list string) (k : string) :
  obj_lookup k (copy_props target src excluded) =
  if str_mem k excluded then obj_lookup k target
  else match obj_lookup k (own_props src) with
       | Some v => Some v
       | None => obj_lookup k target
       end.
Proof.
  unfold copy_props. rewrite copy_fold_lookup, str_mem_lookup.
  destruct (obj_lookup k (own_props src)); destruct (str_mem k excluded); reflexivity.
Qed.

(** [{ ...a, ...b }]: the keys of [b] win. *)
Lemma spread2_lookup (a b : value) (k : string) :
  obj_lookup k (spread2 a b) =
  match obj_lookup k (own_props b) with
  | Some v => Some v
  | None => obj_lookup k (own_props a)
  end.
Proof.
  unfold spread2. rewrite !copy_props_lookup. simpl.
  destruct (obj_lookup k (own_props b)); [reflexivity|].
  now destruct (obj_lookup k (own_props a)).
Qed.

(** SameValueZero is an equivalence. *)
Lemma same_value_zero_sym (x y : value) :
  same_value_zero x y = same_value_zero y x.
Proof.
  destruct x, y; simpl; try reflexivity;
    first [ now destruct b, b0 | apply Z.eqb_sym | apply String.eqb_sym
          | apply Nat.eqb_sym ].
Qed.

Lemma same_value_zero_trans (x y z : value) :
  same_value_zero x y = true -> same_value_zero y z = true ->
  same_value_zero x z = true.
Proof.
  destruct x, y; simpl; try discriminate; destruct z; simpl; try discriminate;
    try reflexivity; intros H1 H2.
  - apply Bool.eqb_prop in H1, H2. subst. apply Bool.eqb_reflx.
  - apply Z.eqb_eq in H1, H2. subst. apply Z.eqb_refl.
  - apply String.eqb_eq in H1, H2. subst. apply String.eqb_refl.
  - apply Nat.eqb_eq in H1, H2. subst. apply Nat.eqb_refl.
  - apply Nat.eqb_eq in H1, H2. subst. apply Nat.eqb_refl.
  - apply Nat.eqb_eq in H1, H2. subst. apply Nat.eqb_refl.
  - apply String.eqb_eq in H1, H2. subst. apply String.eqb_refl.
Qed.

Lemma map_has_congr (m : exports_map) (x y : value) :
  same_value_zero x y = true -> map_has m x = map_has m y.
Proof.
  intros Hxy. unfold map_has. induction (map_keys m) as [|k ks IH]; simpl.
  - reflexivity.
  - rewrite IH. f_equal.
    destruct (same_value_zero x k) eqn:E1, (same_value_zero y k) eqn:E2; try reflexivity.
    + rewrite same_value_zero_sym in Hxy.
      now rewrite (same_value_zero_trans _ _ _ Hxy E1) in E2.
    + now rewrite (same_value_zero_trans _ _ _ Hxy E2) in E1.
Qed.

(* ================================================================== *)
(** * Reasoning about computations *)
(* ================================================================== *)

Lemma bind_run {A B} (c : M A) (k : A -> M B) (s : state) :
  bind c k s =
  match c s with
  | (ev, s1, Ok a) => (ev ++ events_of (k a s1), state_of (k a s1), result_of (k a s1))
  | (ev, s1, Err e) => (ev, s1, Err e)
  end.
Proof.
  unfold bind, events_of, state_of, result_of.
  destruct (c s) as [[ev s1] [a|e]]; [|reflexivity].
  now destruct (k a s1) as [[ev' s2] r].
Qed.

Lemma outcome_eta {A} (o : list event * state * result A) :
  o = (events_of o, state_of o, result_of o).
Proof. now destruct o as [[ev s] r]. Qed.

Lemma bind_ok {A B} (c : M A) (k : A -> M B) (s s1 : state) (ev : list event) (a : A) :
  c s = (ev, s1, Ok a) ->
  bind c k s = (ev ++ events_of (k a s1), state_of (k a s1), result_of (k a s1)).
Proof. intros H. now rewrite bind_run, H. Qed.

Lemma bind_err {A B} (c : M A) (k : A -> M B) (s s1 : state) (ev : list event) (e : error) :
  c s = (ev, s1, Err e) -> bind c k s = (ev, s1, Err e).
Proof. intros H. now rewrite bind_run, H. Qed.

Lemma for_each_app {A} (f : A -> M unit) (l1 l2 : list A) (s : state) :
  for_each f (l1 ++ l2) s = (for_each f l1 ;; for_each f l2) s.
Proof.
  revert s. induction l1 as [|x l1 IH]; intros s; simpl.
  - rewrite bind_run. simpl. apply outcome_eta.
  - rewrite !bind_run. destruct (f x s) as [[ev s1] [[]|e]]; [|reflexivity].
    rewrite IH, !bind_run.
    destruct (for_each f l1 s1) as [[ev1 s2] [[]|e1]]; simpl; [|reflexivity].
    now rewrite app_assoc.
Qed.

Lemma for_each_acc_app {A B} (f : B -> A -> M B) (l1 l2 : list A) (b : B) (s : state) :
  for_each_acc f (l1 ++ l2) b s =
  (b1 <- for_each_acc f l1 b ;; for_each_acc f l2 b1) s.
Proof.
  revert b s. induction l1 as [|x l1 IH]; intros b s; simpl.
  - rewrite bind_run. simpl. apply outcome_eta.
  - rewrite !bind_run. destruct (f b x s) as [[ev s1] [b1|e]]; [|reflexivity].
    rewrite IH, !bind_run.
    destruct (for_each_acc f l1 b1 s1) as [[ev1 s2] [b2|e1]]; simpl; [|reflexivity].
    now rewrite app_assoc.
Qed.

(** Callbacks that agree on the elements visited give the same loop. *)
Lemma for_each_acc_ext {A B} (f g : B -> A -> M B) (l : list A) :
  (forall b x s, In x l -> f b x s = g b x s) ->
  forall b s, for_each_acc f l b s = for_each_acc g l b s.
Proof.
  induction l as [|x l IH]; intros Hfg b s; simpl.
  - reflexivity.
  - rewrite !bind_run, (Hfg b x s (or_introl eq_refl)).
    destruct (g b x s) as [[ev s1] [b1|e]]; [|reflexivity].
    rewrite IH; [reflexivity|]. intros. apply Hfg. now right.
Qed.

(** ** Properties maintained by every step of a pass *)

Section Respect.

Context {ext : Externals}.

Variable Inv : state -> list event -> state -> Prop.
Hypothesis Inv_nil : forall s, Inv s [] s.
Hypothesis Inv_app : forall s ev s1 ev' s2,
  Inv s ev s1 -> Inv s1 ev' s2 -> Inv s (ev ++ ev') s2.

Lemma respects_ret {A} (a : A) : respects Inv (ret a).
Proof. intros s. apply Inv_nil. Qed.

Lemma respects_throw {A} (e : error) : respects Inv (@throw A e).
Proof. intros s. apply Inv_nil. Qed.

Lemma respects_gets {A} (f : state -> A) : respects Inv (gets f).
Proof. intros s. apply Inv_nil. Qed.

Lemma respects_lift {A} (r : result A) : respects Inv (lift r).
Proof. destruct r; [apply respects_ret | apply respects_throw]. Qed.

Lemma respects_bind {A B} (c : M A) (k : A -> M B) :
  respects Inv c -> (forall a, respects Inv (k a)) -> respects Inv (bind c k).
Proof.
  intros Hc Hk s. rewrite bind_run. specialize (Hc s).
  destruct (c s) as [[ev s1] [a|e]]; simpl in *; [|exact Hc].
  eapply Inv_app; [exact Hc | apply Hk].
Qed.

Lemma respects_for_each {A} (f : A -> M unit) (l : list A) :
  (forall x, In x l -> respects Inv (f x)) -> respects Inv (for_each f l).
Proof.
  induction l as [|x l IH]; intros Hf; simpl.
  - apply respects_ret.
  - apply respects_bind; [apply Hf; now left|].
    intros _. apply IH. intros y Hy. apply Hf. now right.
Qed.

Lemma respects_for_each_acc {A B} (f : B -> A -> M B) (l : list A) (b : B) :
  (forall b' x, In x l -> respects Inv (f b' x)) -> respects Inv (for_each_acc f l b).
Proof.
  revert b. induction l as [|x l IH]; intros b Hf; simpl.
  - apply respects_ret.
  - apply respects_bind; [apply Hf; now left|].
    intros b1. apply IH. intros b' y Hy. apply Hf. now right.
Qed.

Variable ok : event -> Prop.
Hypothesis Inv_emit : forall e s, ok e -> Inv s [e] s.
Hypothesis Inv_notice : forall d s,
  warned d s = false -> Inv s [ConsoleWarn d] (set_warned d s).

Lemma respects_emit (e : event) : ok e -> respects Inv (emit e).
Proof. intros He s. now apply Inv_emit. Qed.

Lemma respects_deprecate (d : deprecation) (fn : M unit) :
  respects Inv fn -> respects Inv (deprecate d fn).
Proof.
  intros Hfn s. unfold deprecate. rewrite bind_run. simpl.
  rewrite bind_run.
  destruct (warned d s) eqn:W; simpl.
  - apply Hfn.
  - change (ConsoleWarn d :: events_of (fn (set_warned d s)))
      with ([ConsoleWarn d] ++ events_of (fn (set_warned d s))).
    eapply Inv_app; [now apply Inv_notice | apply Hfn].
Qed.

Lemma respects_remove_unit (exp : value) :
  (forall t, ok (RemoveStoryKind t)) -> respects Inv (remove_unit exp).
Proof.
  intros Hok. unfold remove_unit.
  apply respects_bind; [apply respects_lift|]. intros d.
  destruct (truthy d); [now apply respects_emit | apply respects_ret].
Qed.

End Respect.

(** Closes the goals that only need the structural lemmas. *)
Ltac respect :=
  repeat first
    [ assumption
    | apply respects_ret | apply respects_throw | apply respects_gets
    | apply respects_lift | apply respects_bind | intro ].

Section RespectStory.

Context {ext : Externals}.

Variable Inv : state -> list event -> state -> Prop.
Hypothesis Inv_nil : forall s, Inv s [] s.
Hypothesis Inv_app : forall s ev s1 ev' s2,
  Inv s ev s1 -> Inv s1 ev' s2 -> Inv s (ev ++ ev') s2.
Variable ok : event -> Prop.
Hypothesis Inv_emit : forall e s, ok e -> Inv s [e] s.
Hypothesis Inv_notice : forall d s,
  warned d s = false -> Inv s [ConsoleWarn d] (set_warned d s).
Hypothesis ok_story : forall e, story_event e -> ok e.

Lemma respects_register_story (kindName meta : value) (exports : obj) (key : string) :
  respects Inv (register_story kindName meta exports key).
Proof.
  unfold register_story. destruct (isExportStory key meta); [|respect].
  apply respects_bind; [assumption | respect |]. intros story.
  apply respects_bind; [assumption | respect |]. intros own.
  apply respects_bind; [assumption | respect |]. intros legacy.
  apply respects_bind; [assumption | |].
  - destruct (truthy story); [|respect].
    apply respects_bind; [assumption | |].
    + apply (respects_emit Inv ok); [assumption|]. apply ok_story. exact I.
    + intros _. apply respects_deprecate; respect.
  - intros _. apply (respects_emit Inv ok); [assumption|]. apply ok_story. exact I.
Qed.

Lemma respects_stories (kindName meta : value) (exports : obj) (keys : list string) :
  respects Inv (for_each (register_story kindName meta exports) keys).
Proof.
  apply respects_for_each; try assumption. intros. apply respects_register_story.
Qed.

End RespectStory.

Section RespectKind.

Context {ext : Externals}.

Variable Inv : state -> list event -> state -> Prop.
Hypothesis Inv_nil : forall s, Inv s [] s.
Hypothesis Inv_app : forall s ev s1 ev' s2,
  Inv s ev s1 -> Inv s1 ev' s2 -> Inv s (ev ++ ev') s2.
Variable ok : event -> Prop.
Hypothesis Inv_emit : forall e s, ok e -> Inv s [e] s.
Hypothesis Inv_notice : forall d s,
  warned d s = false -> Inv s [ConsoleWarn d] (set_warned d s).
Hypothesis ok_kind : forall e, kind_event e -> ok e.

Lemma story_event_kind_event (e : event) : story_event e -> kind_event e.
Proof. destruct e as [[]| | | | | | | | |]; simpl; tauto. Qed.

Lemma respects_kind_emit (e : event) : kind_event e -> respects Inv (emit e).
Proof. intros He. apply (respects_emit Inv ok); [assumption|]. now apply ok_kind. Qed.

Lemma respects_register_kind (framework : string) (fileName meta kindName : value)
    (exports : obj) :
  respects Inv (register_kind framework fileName meta kindName exports).
Proof.
  unfold register_kind.
  apply respects_bind; [assumption | now apply respects_kind_emit |]. intros _.
  apply respects_bind; [assumption | now apply respects_kind_emit |]. intros _.
  cbv zeta.
  apply respects_bind; [assumption | |].
  - apply respects_for_each; try assumption. intros d _. now apply respects_kind_emit.
  - intros _. apply respects_bind; [assumption | |].
    + destruct (snd (for_each_visits (get_opt meta "decorators"))); respect.
    + intros _. destruct (obj_keys exports).
      * now apply respects_kind_emit.
      * apply (respects_stories Inv Inv_nil Inv_app ok Inv_emit Inv_notice).
        intros e He. apply ok_kind, story_event_kind_event, He.
Qed.

End RespectKind.

Section RespectAdd.

Context {ext : Externals}.

Variable Inv : state -> list event -> state -> Prop.
Hypothesis Inv_nil : forall s, Inv s [] s.
Hypothesis Inv_app : forall s ev s1 ev' s2,
  Inv s ev s1 -> Inv s1 ev' s2 -> Inv s (ev ++ ev') s2.
Variable ok : event -> Prop.
Hypothesis Inv_emit : forall e s, ok e -> Inv s [e] s.
Hypothesis Inv_notice : forall d s,
  warned d s = false -> Inv s [ConsoleWarn d] (set_warned d s).
Hypothesis ok_add : forall e, add_event e -> ok e.

Lemma kind_event_add_event (e : event) : kind_event e -> add_event e.
Proof. destruct e as [[]| | | | | | | | |]; simpl; tauto. Qed.

Lemma respects_load_unit (framework : string) (currentExports : exports_map)
    (loadedKinds : list value) (fileExports : value) :
  respects Inv (load_unit framework currentExports loadedKinds fileExports).
Proof.
  unfold load_unit.
  apply respects_bind; [assumption | respect |]. intros meta.
  destruct (negb (truthy meta)); [respect|].
  destruct (negb (truthy (get_opt meta "title"))); [respect|].
  apply respects_bind; [assumption | |].
  - unfold duplicate_step.
    destruct (set_has loadedKinds (get_opt meta "title")); [|respect].
    apply respects_deprecate; try assumption.
    apply (respects_emit Inv ok); [assumption|]. apply ok_add. exact I.
  - intros _. apply respects_bind; [assumption | | respect].
    apply (respects_register_kind Inv Inv_nil Inv_app ok Inv_emit Inv_notice).
    intros e He. apply ok_add, kind_event_add_event, He.
Qed.

(** The registration of the added files. *)
Lemma respects_add_phase (framework : string) (currentExports : exports_map)
    (units loadedKinds : list value) :
  respects Inv (for_each_acc (load_unit framework currentExports) units loadedKinds).
Proof. apply respects_for_each_acc; try assumption. intros. apply respects_load_unit. Qed.

End RespectAdd.


Section RespectPass.

Context {ext : Externals}.

Variable Inv : state -> list event -> state -> Prop.
Hypothesis Inv_nil : forall s, Inv s [] s.
Hypothesis Inv_app : forall s ev s1 ev' s2,
  Inv s ev s1 -> Inv s1 ev' s2 -> Inv s (ev ++ ev') s2.
Variable ok : event -> Prop.
Hypothesis Inv_emit : forall e s, ok e -> Inv s [e] s.
Hypothesis Inv_notice : forall d s,
  warned d s = false -> Inv s [ConsoleWarn d] (set_warned d s).
Hypothesis ok_pass : forall e, pass_event e -> ok e.
Hypothesis Inv_snapshot : forall m s, Inv s [] (set_previousExports m s).

Lemma add_event_pass_event (e : event) : add_event e -> pass_event e.
Proof. destruct e as [[]| | | | | | | | |]; simpl; tauto. Qed.

Lemma respects_warn (m : message) :
  pass_event (LoggerWarn m) -> respects Inv (emit (LoggerWarn m)).
Proof. intros Hm. apply (respects_emit Inv ok); [assumption|]. now apply ok_pass. Qed.

Lemma respects_warn_load_error (filename : string) (e : error) :
  respects Inv (warn_load_error filename e).
Proof.
  unfold warn_load_error. destruct (conversion_failure e); [respect|].
  now apply respects_warn.
Qed.

Lemma respects_load_file (req : RequireContext) (cur : exports_map) (filename : string) :
  respects Inv (load_file req cur filename).
Proof.
  unfold load_file.
  destruct (rc_require req filename).
  - destruct (match rc_resolve req with Some r => r filename | None => Ok (VStr filename) end).
    + respect.
    + apply respects_bind; [assumption | apply respects_warn_load_error | respect].
  - apply respects_bind; [assumption | apply respects_warn_load_error | respect].
Qed.

Lemma respects_load_req (cur : exports_map) (req : RequireContext) :
  respects Inv (load_req cur req).
Proof.
  unfold load_req. apply respects_for_each_acc; try assumption.
  intros. apply respects_load_file.
Qed.

Lemma respects_load_exported (exported : value) :
  respects Inv (load_exported exported).
Proof.
  assert (Hwarn : forall v, respects Inv
            (emit (LoggerWarn (LoaderFunctionMisuse v)) ;; ret ([] : exports_map))).
  { intros v. apply respects_bind; [assumption | now apply respects_warn | respect]. }
  unfold load_exported.
  destruct exported; simpl; try apply Hwarn; try solve [respect].
  - destruct b; [apply Hwarn | respect].
  - destruct (negb (n =? 0)%Z); [apply Hwarn | respect].
  - destruct (negb (s =? "")); [apply Hwarn | respect].
  - apply respects_bind; [assumption | respect |].
    intros every. destruct every; [respect | apply Hwarn].
Qed.

Lemma respects_collect_exports (loadable : Loadable) :
  respects Inv (collect_exports loadable).
Proof.
  destruct loadable as [reqs|req|call]; simpl.
  - apply respects_for_each_acc; try assumption. intros. apply respects_load_req.
  - apply respects_bind; [assumption | apply respects_load_req | respect].
  - apply respects_bind; [assumption | respect |].
    intros exported. apply respects_load_exported.
Qed.

Lemma respects_diff_and_register (framework : string) (previous cur : exports_map) :
  respects Inv (diff_and_register framework previous cur).
Proof.
  unfold diff_and_register.
  apply respects_bind; [assumption | |].
  - apply respects_for_each; try assumption. intros exp _.
    apply (respects_remove_unit Inv Inv_nil Inv_app ok Inv_emit).
    intros t. apply ok_pass. exact I.
  - intros _. apply (respects_add_phase Inv Inv_nil Inv_app ok Inv_emit Inv_notice).
    intros e He. apply ok_pass, add_event_pass_event, He.
Qed.

Lemma respects_reconcile (framework : string) (cur : exports_map) :
  respects Inv (reconcile framework cur).
Proof.
  unfold reconcile.
  apply respects_bind; [assumption | respect |]. intros previous.
  apply respects_bind; [assumption | apply respects_diff_and_register |].
  intros _ s. apply Inv_snapshot.
Qed.

Lemma respects_loadStories (loadable : Loadable) (framework : string) :
  respects Inv (loadStories loadable framework).
Proof.
  unfold loadStories.
  apply respects_bind; [assumption | apply respects_collect_exports |].
  intros cur. apply respects_reconcile.
Qed.

Hypothesis ok_hot : ok HotDispose /\ ok HotAccept /\ ok (LoggerWarn UnexpectedLoadedState).
Hypothesis Inv_loaded : forall b s, Inv s [] (set_loaded b s).

Lemma respects_loadCsf (framework : string) (loadable : Loadable) (m : NodeModule)
    (show : bool) :
  respects Inv (loadCsf framework loadable m show).
Proof.
  destruct ok_hot as (Hd & Ha & Hw).
  assert (Htail : respects Inv
    (wasLoaded <- gets loaded ;;
     (if wasLoaded then emit (LoggerWarn UnexpectedLoadedState) else ret tt) ;;
     modify (set_loaded true) ;;
     configure (loadStories loadable framework) m)).
  { apply respects_bind; [assumption | respect |]. intros w.
    apply respects_bind; [assumption | |].
    - destruct w; [now apply (respects_emit Inv ok) | respect].
    - intros _. apply respects_bind; [assumption | |].
      + intros s. apply Inv_loaded.
      + intros _. apply respects_loadStories. }
  unfold loadCsf.
  apply respects_bind; [assumption | |].
  - destruct show; [|respect].
    apply respects_deprecate; respect.
  - intros _. destruct m as [str| |data].
    + respect.
    + apply respects_bind; [assumption | respect | intros _; apply Htail].
    + apply respects_bind; [assumption | | intros _; apply Htail].
      apply respects_bind; [assumption | intros s; apply Inv_snapshot |]. intros _.
      apply respects_bind; [assumption | now apply (respects_emit Inv ok) |].
      intros _. now apply (respects_emit Inv ok).
Qed.

End RespectPass.

(** ** Instances: what a pass never emits, what it never writes *)

Section Instances.

Context {ext : Externals}.

Lemma add_phase_events (Q : event -> Prop) (framework : string) (cur : exports_map)
    (units seen : list value) (s : state) :
  (forall e, add_event e -> Q e) -> (forall d, Q (ConsoleWarn d)) ->
  Forall Q (events_of (for_each_acc (load_unit framework cur) units seen s)).
Proof.
  intros Hadd Hnotice.
  apply (respects_add_phase (fun _ ev _ => Forall Q ev)) with (ok := Q); auto.
  - intros. now apply Forall_app.
Qed.

Lemma register_kind_events (Q : event -> Prop) (framework : string)
    (fileName meta kindName : value) (exports : obj) (s : state) :
  (forall e, kind_event e -> Q e) -> (forall d, Q (ConsoleWarn d)) ->
  Forall Q (events_of (register_kind framework fileName meta kindName exports s)).
Proof.
  intros Hadd Hnotice.
  apply (respects_register_kind (fun _ ev _ => Forall Q ev)) with (ok := Q); auto.
  - intros. now apply Forall_app.
Qed.

Lemma pass_events (Q : event -> Prop) (loadable : Loadable) (framework : string)
    (s : state) :
  (forall e, pass_event e -> Q e) -> (forall d, Q (ConsoleWarn d)) ->
  Forall Q (events_of (loadStories loadable framework s)).
Proof.
  intros Hpass Hnotice.
  apply (respects_loadStories (fun _ ev _ => Forall Q ev)) with (ok := Q); auto.
  - intros. now apply Forall_app.
Qed.

(** Neither the removals nor the additions write the snapshot or the
    loaded flag. *)
Lemma diff_and_register_keeps (framework : string) (previous cur : exports_map)
    (s : state) :
  let s' := state_of (diff_and_register framework previous cur s) in
  previousExports s' = previousExports s /\ loaded s' = loaded s.
Proof.
  apply (respects_diff_and_register
           (fun s0 _ s1 => previousExports s1 = previousExports s0 /\ loaded s1 = loaded s0))
    with (ok := fun _ => True); auto.
  - intros s0 ev s1 ev' s2 [H1 H2] [H3 H4]. split; congruence.
  - intros [] s0 _; simpl; auto.
Qed.

Lemma loadStories_keeps_loaded (loadable : Loadable) (framework : string) (s : state) :
  loaded (state_of (loadStories loadable framework s)) = loaded s.
Proof.
  apply (respects_loadStories (fun s0 _ s1 => loaded s1 = loaded s0))
    with (ok := fun _ => True); auto.
  - intros; congruence.
  - intros [] s0 _; reflexivity.
Qed.

Lemma count_events_app (p : event -> bool) (l1 l2 : list event) :
  count_events p (l1 ++ l2) = count_events p l1 + count_events p l2.
Proof. unfold count_events. now rewrite filter_app, length_app. Qed.

Lemma count_events_none (p : event -> bool) (l : list event) :
  Forall (fun e => p e = false) l -> count_events p l = 0.
Proof.
  unfold count_events. induction 1 as [|e l He _ IH]; simpl.
  - reflexivity.
  - now rewrite He.
Qed.

End Instances.

(* ================================================================== *)
(** * The diff of a pass *)
(* ================================================================== *)

Lemma map_keys_filter (p : value -> bool) (m : exports_map) :
  map_keys (filter (fun kv => p (fst kv)) m) = filter p (map_keys m).
Proof.
  unfold map_keys. induction m as [|[k v] m IH]; simpl.
  - reflexivity.
  - destruct (p k); simpl; now rewrite IH.
Qed.

Lemma map_has_filter_false (q : value * value -> bool) (m : exports_map) (e : value) :
  map_has m e = false -> map_has (filter q m) e = false.
Proof.
  unfold map_has, map_keys. induction m as [|[k v] m IH]; simpl.
  - reflexivity.
  - intros H. apply Bool.orb_false_iff in H. destruct H as [Hk Hm].
    destruct (q (k, v)); simpl; [rewrite Hk|]; now apply IH.
Qed.

Lemma filter_absorb {A} (f g : A -> bool) (l : list A) :
  (forall x, g x = true -> f x = true) -> filter f (filter g l) = filter g l.
Proof.
  intros Hgf. induction l as [|x l IH]; simpl.
  - reflexivity.
  - destruct (g x) eqn:G; simpl; [rewrite (Hgf x G)|]; now rewrite IH.
Qed.

Lemma removed_spec (previous current : exports_map) (exp : value) :
  In exp (removed previous current) <->
  In exp (map_keys previous) /\ map_has current exp = false.
Proof.
  unfold removed. rewrite filter_In, Bool.negb_true_iff. reflexivity.
Qed.

Lemma added_spec (previous current : exports_map) (exp : value) :
  In exp (added previous current) <->
  In exp (map_keys current) /\ map_has previous exp = false.
Proof.
  unfold added. rewrite filter_In, Bool.negb_true_iff. reflexivity.
Qed.

Lemma removed_erased (previous current : exports_map) :
  removed (only_removed previous current) (only_added previous current) =
  removed previous current.
Proof.
  unfold removed, only_removed at 1.
  rewrite (map_keys_filter (fun k => negb (map_has current k))).
  apply filter_absorb. intros x Hx. apply Bool.negb_true_iff in Hx.
  apply Bool.negb_true_iff. now apply map_has_filter_false.
Qed.

Lemma added_erased (previous current : exports_map) :
  added (only_removed previous current) (only_added previous current) =
  added previous current.
Proof.
  unfold added, only_added at 1.
  rewrite (map_keys_filter (fun k => negb (map_has previous k))).
  apply filter_absorb. intros x Hx. apply Bool.negb_true_iff in Hx.
  apply Bool.negb_true_iff. now apply map_has_filter_false.
Qed.

(** An added unit finds the same path in the current set with or without
    the unchanged units. *)
Lemma map_get_only_added (previous current : exports_map) (exp : value) :
  map_has previous exp = false ->
  map_get (only_added previous current) exp = map_get current exp.
Proof.
  intros Hexp. unfold only_added.
  induction current as [|[k v] current IH]; simpl.
  - reflexivity.
  - destruct (map_has previous k) eqn:Hk; simpl.
    + destruct (same_value_zero exp k) eqn:E; [|exact IH].
      rewrite (map_has_congr previous exp k E) in Hexp. congruence.
    + now rewrite IH.
Qed.


(* ================================================================== *)
(** * Removed units *)
(* ================================================================== *)

Lemma get_not_nullish (v : value) (k : string) :
  nullish v = false -> get v k = Ok (get_opt v k).
Proof.
  unfold get_opt. destruct v; simpl; try discriminate; try reflexivity.
  intros _. now destruct (obj_lookup k props).
Qed.


Lemma get_ok_not_nullish (v d : value) (k : string) :
  get v k = Ok d -> nullish v = false /\ d = get_opt v k.
Proof.
  intros H. unfold get_opt. rewrite H. destruct v; simpl in *; try discriminate; auto.
Qed.

Lemma remove_unit_run (exp : value) (s : state) :
  nullish exp = false -> remove_unit exp s = (removal_calls exp, s, Ok tt).
Proof.
  intros Hexp. unfold remove_unit, removal_calls, has_default.
  rewrite (get_not_nullish _ _ Hexp). unfold bind, lift, ret, emit. simpl.
  now destruct (truthy (get_opt exp "default")).
Qed.

Lemma remove_phase_run (units : list value) (s : state) :
  Forall (fun exp => nullish exp = false) units ->
  for_each remove_unit units s = (flat_map removal_calls units, s, Ok tt).
Proof.
  induction 1 as [|exp units Hexp _ IH]; simpl.
  - reflexivity.
  - unfold bind. now rewrite (remove_unit_run _ _ Hexp), IH.
Qed.


Section Removal.

Context {ext : Externals}.


End Removal.

(* ================================================================== *)
(** * A default export without title *)
(* ================================================================== *)

Section MissingTitle.

Context {ext : Externals}.

Lemma load_unit_without_title (framework : string) (cur : exports_map)
    (seen : list value) (u meta : value) (s : state) :
  get u "default" = Ok meta -> truthy meta = true -> has_title meta = false ->
  load_unit framework cur seen u s = ([], s, Err (DefaultExportWithoutTitle meta)).
Proof.
  unfold has_title. intros Hget Hmeta Htitle.
  unfold load_unit. rewrite Hget. unfold bind, lift, ret, throw. simpl.
  now rewrite Hmeta, Htitle.
Qed.

(** The snapshot is written by the last statement of a pass and by nothing
    before it. *)
Lemma reconcile_snapshot (framework : string) (current : exports_map) (s : state) :
  previousExports (state_of (reconcile framework current s)) =
  match result_of (reconcile framework current s) with
  | Ok _ => current
  | Err _ => previousExports s
  end.
Proof.
  pose proof (diff_and_register_keeps framework (previousExports s) current s) as [Hk _].
  unfold reconcile, bind, gets, modify. simpl.
  destruct (diff_and_register framework (previousExports s) current s)
    as [[ev s1] [seen|e]]; simpl in *; [reflexivity | exact Hk].
Qed.

(** C3. When an added unit's default export has no title, and the removals
    and the units added before it went through, the pass ends with the error
    naming that default export; the calls made so far are all the pass
    leaves behind (none is undone, none is added); the snapshot is still the
    previous one. In general the snapshot equals the current set after a pass
    that completes and is untouched after a pass that throws. *)
Theorem missing_title_aborts_pass (framework : string) (current : exports_map)
    (s : state) (pre post : list value) (u meta : value) (seen : list value) :
  let previous := previousExports s in
  let before :=
    (for_each remove_unit (removed previous current) ;;
     for_each_acc (load_unit framework current) pre []) s in
  let o := reconcile framework current s in
  added previous current = pre ++ u :: post ->
  get u "default" = Ok meta -> truthy meta = true -> has_title meta = false ->
  result_of before = Ok seen ->
  result_of o = Err (DefaultExportWithoutTitle meta) /\
  events_of o = events_of before /\
  state_of o = state_of before /\
  previousExports (state_of o) = previous /\
  (forall current' s',
     previousExports (state_of (reconcile framework current' s')) =
     match result_of (reconcile framework current' s') with
     | Ok _ => current'
     | Err _ => previousExports s'
     end).
Proof.
  intros previous before o Hadded Hget Hmeta Htitle Hbefore.
  assert (Ho : o = (events_of before, state_of before,
                    Err (DefaultExportWithoutTitle meta))).
  { subst o before. revert Hbefore.
    destruct (for_each remove_unit (removed previous current) s)
      as [[ev s1] [[]|e]] eqn:HR.
    2:{ rewrite (bind_err _ _ _ _ _ _ HR). discriminate. }
    rewrite (bind_ok _ _ _ _ _ _ HR).
    destruct (for_each_acc (load_unit framework current) pre [] s1)
      as [[ev1 s2] [seen1|e]] eqn:HA; simpl; [|discriminate].
    intros _.
    assert (Hadd : for_each_acc (load_unit framework current) (pre ++ u :: post) [] s1
                   = (ev1, s2, Err (DefaultExportWithoutTitle meta))).
    { rewrite for_each_acc_app, (bind_ok _ _ _ _ _ _ HA). simpl.
      rewrite (bind_err _ _ s2 s2 [] (DefaultExportWithoutTitle meta)).
      - simpl. now rewrite app_nil_r.
      - now apply load_unit_without_title. }
    unfold reconcile.
    rewrite (bind_ok _ _ s s [] (previousExports s)) by reflexivity. simpl.
    fold previous.
    rewrite (bind_err _ _ s s2 (ev ++ ev1) (DefaultExportWithoutTitle meta));
      [reflexivity|].
    unfold diff_and_register. rewrite (bind_ok _ _ _ _ _ _ HR), Hadded, Hadd.
    reflexivity. }
  split; [now rewrite Ho|]. split; [now rewrite Ho|]. split; [now rewrite Ho|].
  split.
  - subst o. rewrite reconcile_snapshot. fold (reconcile framework current s) in Ho.
    now rewrite Ho.
  - intros. apply reconcile_snapshot.
Qed.

End MissingTitle.

(* ================================================================== *)
(** * Running the registration of one file *)
(* ================================================================== *)

Lemma deprecate_run (d : deprecation) (fn : M unit) (s : state) :
  deprecate d fn s =
  (notice_events d s ++ events_of (fn (after_notice d s)),
   state_of (fn (after_notice d s)),
   result_of (fn (after_notice d s))).
Proof.
  unfold deprecate, notice_events, after_notice, bind, gets, ret, emit, modify. simpl.
  destruct (warned d s); simpl; now destruct (fn _) as [[ev s1] r].
Qed.

Lemma decorators_run (kindName : value) (ds : list value) (s : state) :
  for_each (fun decorator => emit (KindAddDecorator kindName decorator)) ds s =
  (map (KindAddDecorator kindName) ds, s, Ok tt).
Proof.
  induction ds as [|d ds IH]; simpl.
  - reflexivity.
  - rewrite (bind_ok _ _ s s [KindAddDecorator kindName d] tt) by reflexivity.
    now rewrite IH.
Qed.

Section RunUnit.

Context {ext : Externals}.

Lemma duplicateKindWarning_run (kindName : value) (s : state) :
  duplicateKindWarning kindName s =
  (notice_events DuplicateKindDeprecated s ++ [LoggerWarn (DuplicateTitle kindName)],
   after_notice DuplicateKindDeprecated s, Ok tt).
Proof. unfold duplicateKindWarning. now rewrite deprecate_run. Qed.

Lemma register_kind_run (framework : string) (fileName meta kindName : value)
    (exports : obj) (ds : list value) (s : state) :
  for_each_or_empty (get_opt meta "decorators") = Ok ds ->
  register_kind framework fileName meta kindName exports s =
  match obj_keys exports with
  | [] => (kind_setup framework fileName meta kindName ds
             ++ [LoggerWarn (NoExportedStories kindName)], s, Ok tt)
  | keys =>
      let o := for_each (register_story kindName meta exports) keys s in
      (kind_setup framework fileName meta kindName ds ++ events_of o,
       state_of o, result_of o)
  end.
Proof.
  intros Hds.
  assert (Hvisit : for_each_visits (get_opt meta "decorators") = (ds, None)).
  { unfold for_each_or_empty in Hds.
    destruct (for_each_visits (get_opt meta "decorators")) as [visited [e|]];
      [discriminate | congruence]. }
  unfold register_kind, kind_setup. rewrite Hvisit. cbn [fst snd].
  rewrite (bind_ok _ _ s s [StoriesOf kindName] tt) by reflexivity. cbn beta.
  rewrite (bind_ok _ _ s s
             [KindAddParameters kindName (kind_parameters framework fileName meta)] tt)
    by reflexivity. cbn beta.
  rewrite (bind_ok _ _ s s (map (KindAddDecorator kindName) ds) tt)
    by apply decorators_run.
  cbn beta. rewrite (bind_ok _ _ s s [] tt) by reflexivity. cbn beta.
  destruct (obj_keys exports) as [|k keys]; reflexivity.
Qed.

(** A [forEach] that throws ends the registration after the decorators it
    visited. *)
Lemma register_kind_bad_decorators (framework : string) (fileName meta kindName : value)
    (exports : obj) (e : error) (s : state) :
  for_each_or_empty (get_opt meta "decorators") = Err e ->
  register_kind framework fileName meta kindName exports s =
  (kind_setup framework fileName meta kindName
     (fst (for_each_visits (get_opt meta "decorators"))), s, Err e).
Proof.
  intros Hds. unfold for_each_or_empty in Hds.
  unfold register_kind, kind_setup.
  destruct (for_each_visits (get_opt meta "decorators")) as [visited [e'|]];
    [|discriminate].
  injection Hds as ->. cbn [fst snd].
  rewrite (bind_ok _ _ s s [StoriesOf kindName] tt) by reflexivity. cbn beta.
  rewrite (bind_ok _ _ s s
             [KindAddParameters kindName (kind_parameters framework fileName meta)] tt)
    by reflexivity. cbn beta.
  rewrite (bind_ok _ _ s s (map (KindAddDecorator kindName) visited) tt)
    by apply decorators_run.
  cbn beta. simpl. now rewrite app_nil_r.
Qed.

Lemma duplicate_step_run (seen : list value) (kindName : value) (s : state) :
  duplicate_step seen kindName s =
  (if set_has seen kindName
   then notice_events DuplicateKindDeprecated s ++ [LoggerWarn (DuplicateTitle kindName)]
   else [],
   if set_has seen kindName then after_notice DuplicateKindDeprecated s else s,
   Ok tt).
Proof.
  unfold duplicate_step. destruct (set_has seen kindName).
  - apply duplicateKindWarning_run.
  - reflexivity.
Qed.

Lemma load_unit_run (framework : string) (cur : exports_map) (seen : list value)
    (u meta : value) (s : state) :
  get u "default" = Ok meta -> truthy meta = true -> has_title meta = true ->
  let kindName := get_opt meta "title" in
  let pre := duplicate_step seen kindName s in
  let o := register_kind framework (map_get cur u) meta kindName (story_exports u)
                         (state_of pre) in
  load_unit framework cur seen u s =
  (events_of pre ++ events_of o, state_of o,
   match result_of o with
   | Ok _ => Ok (set_add seen kindName)
   | Err e => Err e
   end).
Proof.
  intros Hget Hmeta Htitle kindName pre o. unfold has_title in Htitle.
  unfold load_unit. rewrite Hget.
  rewrite (bind_ok _ _ s s [] meta) by reflexivity. cbn beta.
  rewrite Hmeta, Htitle. cbn [negb app]. fold kindName.
  destruct (duplicate_step seen kindName s) as [[ev0 s0] r0] eqn:Hpre.
  assert (Hr0 : r0 = Ok tt).
  { rewrite duplicate_step_run in Hpre. now inversion Hpre. }
  subst r0. rewrite (bind_ok _ _ _ _ _ _ Hpre). cbn beta.
  subst o pre. cbn [events_of state_of result_of fst snd].
  rewrite bind_run.
  destruct (register_kind _ _ _ _ _ _) as [[ev s1] [[]|e]]; simpl.
  - now rewrite app_nil_r.
  - reflexivity.
Qed.

End RunUnit.

(* ================================================================== *)
(** * Kind parameters *)
(* ================================================================== *)

Lemma kind_parameters_lookup (framework : string) (fileName meta : value) (k : string) :
  obj_lookup k (kind_parameters framework fileName meta) =
  if "argTypes" =? k then Some (get_opt meta "argTypes")
  else if "args" =? k then Some (get_opt meta "args")
  else match obj_lookup k (own_props (get_opt meta "parameters")) with
       | Some v => Some v
       | None =>
           obj_lookup k [("framework", VStr framework);
                         ("component", get_opt meta "component");
                         ("subcomponents", get_opt meta "subcomponents");
                         ("fileName", fileName)]
       end.
Proof.
  unfold kind_parameters. rewrite !obj_lookup_set, copy_props_lookup. reflexivity.
Qed.

Section KindParameters.

Context {ext : Externals}.

Lemma load_unit_adds_parameters (framework : string) (cur : exports_map)
    (seen : list value) (u meta : value) (s : state) :
  get u "default" = Ok meta -> truthy meta = true -> has_title meta = true ->
  In (KindAddParameters (get_opt meta "title")
        (kind_parameters framework (map_get cur u) meta))
     (events_of (load_unit framework cur seen u s)).
Proof.
  intros Hget Hmeta Htitle.
  rewrite (load_unit_run _ _ _ _ _ _ Hget Hmeta Htitle). simpl.
  apply in_or_app. right.
  destruct (for_each_or_empty (get_opt meta "decorators")) as [ds|e] eqn:Hds.
  - rewrite (register_kind_run _ _ _ _ _ ds _ Hds).
    unfold kind_setup. destruct (obj_keys (story_exports u)); simpl; auto.
  - rewrite (register_kind_bad_decorators _ _ _ _ _ e _ Hds). simpl. auto.
Qed.

(** C10. For an added unit with a titled default export, the bag handed to
    [addParameters] is built so that the keys of the kind's own [parameters]
    override [framework], [component], [subcomponents] and [fileName], and
    the default export's [args] and [argTypes] override whatever
    [parameters] holds under those two keys. *)
Theorem kind_parameters_precedence (framework : string) (cur : exports_map)
    (seen : list value) (u meta : value) (s : state) :
  get u "default" = Ok meta -> truthy meta = true -> has_title meta = true ->
  let fileName := map_get cur u in
  let bag := kind_parameters framework fileName meta in
  let own := own_props (get_opt meta "parameters") in
  In (KindAddParameters (get_opt meta "title") bag)
     (events_of (load_unit framework cur seen u s)) /\
  obj_lookup "args" bag = Some (get_opt meta "args") /\
  obj_lookup "argTypes" bag = Some (get_opt meta "argTypes") /\
  (forall k v, k <> "args" -> k <> "argTypes" ->
     obj_lookup k own = Some v -> obj_lookup k bag = Some v) /\
  (obj_lookup "framework" own = None ->
     obj_lookup "framework" bag = Some (VStr framework)) /\
  (obj_lookup "component" own = None ->
     obj_lookup "component" bag = Some (get_opt meta "component")) /\
  (obj_lookup "subcomponents" own = None ->
     obj_lookup "subcomponents" bag = Some (get_opt meta "subcomponents")) /\
  (obj_lookup "fileName" own = None -> obj_lookup "fileName" bag = Some fileName).
Proof.
  intros Hget Hmeta Htitle fileName bag own.
  split; [now apply load_unit_adds_parameters|].
  subst bag own.
  split; [now rewrite kind_parameters_lookup|].
  split; [now rewrite kind_parameters_lookup|].
  split.
  { intros k v Hargs HargTypes Hk. rewrite kind_parameters_lookup, Hk.
    destruct ("argTypes" =? k) eqn:E1; [apply String.eqb_eq in E1; congruence|].
    destruct ("args" =? k) eqn:E2; [apply String.eqb_eq in E2; congruence|].
    reflexivity. }
  repeat split; intros Hk; rewrite kind_parameters_lookup, Hk; reflexivity.
Qed.

End KindParameters.

(* ================================================================== *)
(** * Stories *)
(* ================================================================== *)

Section Stories.

Context {ext : Externals}.

Lemma stories_events (Q : event -> Prop) (kindName meta : value) (exports : obj)
    (keys : list string) (s : state) :
  (forall e, story_event e -> Q e) -> (forall d, Q (ConsoleWarn d)) ->
  Forall Q (events_of (for_each (register_story kindName meta exports) keys s)).
Proof.
  intros Hstory Hnotice.
  apply (respects_stories (fun _ ev _ => Forall Q ev)) with (ok := Q); auto.
  - intros. now apply Forall_app.
Qed.

Lemma register_story_run (kindName meta : value) (exports : obj) (key : string)
    (story : value) (own legacy : list value) (s : state) :
  isExportStory key meta = true ->
  let storyFn := obj_get exports key in
  get storyFn "story" = Ok story ->
  iterate_or_empty (get_opt storyFn "decorators") = Ok own ->
  iterate_or_empty (get_opt story "decorators") = Ok legacy ->
  register_story kindName meta exports key s =
  ((if truthy story
    then LoggerDebug story :: notice_events StoryAnnotationDeprecated s
    else [])
   ++ [KindAdd kindName (display_name storyFn story (storyNameFromExport key)) storyFn
         (story_params kindName meta storyFn story own legacy (storyNameFromExport key))],
   if truthy story then after_notice StoryAnnotationDeprecated s else s,
   Ok tt).
Proof.
  intros Hrec storyFn Hstory Hown Hlegacy.
  unfold register_story. rewrite Hrec. fold storyFn. rewrite Hstory.
  rewrite (bind_ok _ _ s s [] story) by reflexivity. cbn beta. rewrite Hown.
  rewrite (bind_ok _ _ s s [] own) by reflexivity. cbn beta. rewrite Hlegacy.
  rewrite (bind_ok _ _ s s [] legacy) by reflexivity. cbn beta.
  destruct (truthy story).
  - rewrite (bind_ok _ _ s (after_notice StoryAnnotationDeprecated s)
               (LoggerDebug story :: notice_events StoryAnnotationDeprecated s) tt).
    + reflexivity.
    + rewrite (bind_ok _ _ s s [LoggerDebug story] tt) by reflexivity. cbn beta.
      unfold deprecatedStoryAnnotationWarning. rewrite deprecate_run. simpl.
      now rewrite app_nil_r.
  - rewrite (bind_ok _ _ s s [] tt) by reflexivity. reflexivity.
Qed.

(** C2. A recognized export that carries a legacy [story] annotation object
    next to its own annotations is registered with merged fields:
    [parameters], [args] and [argTypes] hold, under every key, the value of
    the export's own map when it has the key and the legacy map's value
    otherwise; [decorators] is the export's own list followed by the legacy
    list. *)
Theorem merged_annotations (kindName meta : value) (exports : obj) (key : string)
    (story : value) (own legacy : list value) (s : state) :
  let storyFn := obj_get exports key in
  let merged (field : string) (k : string) :=
    match obj_lookup k (own_props (get_opt storyFn field)) with
    | Some v => Some v
    | None => obj_lookup k (own_props (get_opt story field))
    end in
  isExportStory key meta = true ->
  get storyFn "story" = Ok story -> truthy story = true ->
  iterate_or_empty (get_opt storyFn "decorators") = Ok own ->
  iterate_or_empty (get_opt story "decorators") = Ok legacy ->
  exists name params,
    events_of (register_story kindName meta exports key s) =
      LoggerDebug story :: notice_events StoryAnnotationDeprecated s
        ++ [KindAdd kindName name storyFn params] /\
    result_of (register_story kindName meta exports key s) = Ok tt /\
    (forall k, obj_lookup k (sp_parameters params) = merged "parameters" k) /\
    (forall k, obj_lookup k (sp_args params) = merged "args" k) /\
    (forall k, obj_lookup k (sp_argTypes params) = merged "argTypes" k) /\
    sp_decorators params = own ++ legacy.
Proof.
  intros storyFn merged Hrec Hstory Htruthy Hown Hlegacy.
  exists (display_name storyFn story (storyNameFromExport key)).
  exists (story_params kindName meta storyFn story own legacy (storyNameFromExport key)).
  rewrite (register_story_run _ _ _ _ _ _ _ _ Hrec Hstory Hown Hlegacy), Htruthy.
  simpl. repeat split; intros k; apply spread2_lookup.
Qed.

End Stories.

Section DisplayName.

Context {ext : Externals}.

Lemma count_events_cons (p : event -> bool) (e : event) (l : list event) :
  count_events p (e :: l) = (if p e then 1 else 0) + count_events p l.
Proof. unfold count_events. simpl. now destruct (p e). Qed.

Lemma notice_events_count (p : event -> bool) (d : deprecation) (s : state) :
  p (ConsoleWarn d) = false -> count_events p (notice_events d s) = 0.
Proof.
  intros Hp. unfold notice_events. destruct (warned d s); [reflexivity|].
  rewrite count_events_cons, Hp. reflexivity.
Qed.

(** C8, amended. The name under which a recognized export is registered is
    its own [storyName] when that is a non-empty (truthy) value; when the
    export has no [storyName] it is the legacy annotation's [name] if that
    is truthy, and otherwise the name derived from the export key. *)
Theorem display_name_rule (kindName meta : value) (exports : obj) (key : string)
    (story : value) (own legacy : list value) (s : state) :
  let storyFn := obj_get exports key in
  let explicit := get_opt storyFn "storyName" in
  let legacyName := get_opt story "name" in
  isExportStory key meta = true ->
  get storyFn "story" = Ok story ->
  iterate_or_empty (get_opt storyFn "decorators") = Ok own ->
  iterate_or_empty (get_opt story "decorators") = Ok legacy ->
  exists name params,
    In (KindAdd kindName name storyFn params)
       (events_of (register_story kindName meta exports key s)) /\
    count_events is_kind_add (events_of (register_story kindName meta exports key s)) = 1 /\
    (truthy explicit = true -> name = explicit) /\
    (explicit = VUndefined -> truthy legacyName = true -> name = legacyName) /\
    (explicit = VUndefined -> truthy legacyName = false ->
       name = VStr (storyNameFromExport key)).
Proof.
  intros storyFn explicit legacyName Hrec Hstory Hown Hlegacy.
  exists (display_name storyFn story (storyNameFromExport key)).
  exists (story_params kindName meta storyFn story own legacy (storyNameFromExport key)).
  rewrite (register_story_run _ _ _ _ _ _ _ _ Hrec Hstory Hown Hlegacy). simpl.
  split; [apply in_or_app; right; now left|].
  split.
  { rewrite count_events_app. destruct (truthy story).
    - rewrite count_events_cons. simpl.
      now rewrite (notice_events_count is_kind_add).
    - reflexivity. }
  subst explicit legacyName. unfold display_name, story_name, js_or.
  split; [|split].
  - intros He. destruct (get_opt storyFn "storyName");
      try discriminate He; simpl in *; now rewrite ?He.
  - intros He Hl. rewrite He. now rewrite Hl.
  - intros He Hl. rewrite He. now rewrite Hl.
Qed.

End DisplayName.

(* ================================================================== *)
(** * A kind without named exports *)
(* ================================================================== *)

Section EmptyKind.

Context {ext : Externals}.

Lemma kind_setup_count (p : event -> bool) (framework : string)
    (fileName meta kindName : value) (ds : list value) :
  (forall k, p (StoriesOf k) = false) ->
  (forall k bag, p (KindAddParameters k bag) = false) ->
  (forall k d, p (KindAddDecorator k d) = false) ->
  count_events p (kind_setup framework fileName meta kindName ds) = 0.
Proof.
  intros H1 H2 H3. apply count_events_none. unfold kind_setup.
  repeat constructor; auto.
  apply Forall_forall. intros e He. apply in_map_iff in He.
  destruct He as [d [<- _]]. apply H3.
Qed.

(** C7, amended. For an added unit whose kind decorators are a list (or
    absent) and which has no named export left after the ordering step, the
    kind is registered with its parameters and decorators, the warning naming
    the kind is logged, the unit completes and no story is added. The test is
    made before the recognition predicate is consulted: when named exports
    are left, no such warning is logged, whether or not any is recognized. *)
Theorem no_exported_stories_warning (framework : string) (cur : exports_map)
    (seen : list value) (u meta : value) (ds : list value) (s : state) :
  let kindName := get_opt meta "title" in
  let o := load_unit framework cur seen u s in
  get u "default" = Ok meta -> truthy meta = true -> has_title meta = true ->
  for_each_or_empty (get_opt meta "decorators") = Ok ds ->
  (obj_keys (story_exports u) = [] ->
     events_of o =
       events_of (duplicate_step seen kindName s)
       ++ kind_setup framework (map_get cur u) meta kindName ds
       ++ [LoggerWarn (NoExportedStories kindName)] /\
     result_of o = Ok (set_add seen kindName) /\
     count_events is_kind_add (events_of o) = 0) /\
  (obj_keys (story_exports u) <> [] ->
     count_events is_no_stories_warning (events_of o) = 0).
Proof.
  intros kindName o Hget Hmeta Htitle Hds. subst o.
  rewrite (load_unit_run _ _ _ _ _ _ Hget Hmeta Htitle).
  fold kindName. rewrite (register_kind_run _ _ _ _ _ ds _ Hds).
  assert (Hpre : forall p, p (ConsoleWarn DuplicateKindDeprecated) = false ->
                 p (LoggerWarn (DuplicateTitle kindName)) = false ->
                 count_events p (events_of (duplicate_step seen kindName s)) = 0).
  { intros p Hp1 Hp2. rewrite duplicate_step_run. simpl.
    destruct (set_has seen kindName); [|reflexivity].
    rewrite count_events_app, (notice_events_count p _ _ Hp1), count_events_cons, Hp2.
    reflexivity. }
  split.
  - intros Hkeys. rewrite Hkeys. cbn [events_of state_of result_of fst snd].
    split; [reflexivity|]. split; [reflexivity|].
    rewrite !count_events_app, Hpre by reflexivity.
    now rewrite kind_setup_count.
  - intros Hkeys. destruct (obj_keys (story_exports u)) as [|k keys] eqn:E;
      [congruence|]. cbn [events_of state_of result_of fst snd].
    rewrite !count_events_app, Hpre by reflexivity.
    rewrite kind_setup_count by reflexivity.
    cbn [Nat.add]. apply count_events_none. apply stories_events.
    + now intros [[]| | | | | | | | |].
    + reflexivity.
Qed.

End EmptyKind.

(* ================================================================== *)
(** * The order of the named exports *)
(* ================================================================== *)


Lemma dedup_from_In (l seen : list string) (k : string) :
  In k (dedup_from seen l) <-> In k l /\ str_mem k seen = false.
Proof.
  revert seen. induction l as [|x l IH]; intros seen; simpl.
  - tauto.
  - destruct (str_mem x seen) eqn:Hx.
    + rewrite IH. split; [tauto|]. intros [[->|H] Hk]; [congruence | tauto].
    + simpl. rewrite IH. simpl. rewrite (String.eqb_sym k x).
      destruct (x =? k) eqn:E.
      * apply String.eqb_eq in E. subst x. simpl. split; [|tauto].
        intros [_|[_ H]]; [tauto | discriminate].
      * apply String.eqb_neq in E. simpl. split; [|tauto].
        intros [H|H]; [congruence | tauto].
Qed.

Lemma dedup_from_NoDup (l seen : list string) : NoDup (dedup_from seen l).
Proof.
  revert seen. induction l as [|x l IH]; intros seen; simpl.
  - constructor.
  - destruct (str_mem x seen); [apply IH|].
    constructor; [|apply IH].
    rewrite dedup_from_In. simpl. rewrite String.eqb_refl. simpl.
    intros [_ H]. discriminate.
Qed.

(** ** Objects kept in the order of [Object.keys] *)











Lemma no_index_in_order (l : list string) :
  forallb (fun k => negb (is_array_index k)) l = true -> keys_in_order l = true.
Proof.
  induction l as [|k l IH]; simpl; [reflexivity|]. intros H.
  apply Bool.andb_true_iff in H. destruct H as [Hk Hl].
  unfold is_array_index in Hk. destruct (array_index k); [discriminate | exact Hl].
Qed.






Section Order.

Context {ext : Externals}.






End Order.

(** C4. The order hint is meant to decide which named exports are processed
    and in which order, and it does so in the example of the claim: with the
    exports a, b and c and the hint [c, a], c then a are registered and b is
    not. It does not do so for every list, because the processed exports are
    collected in a plain object: with the exports "1" and b and the hint
    [b, 1], the export "1" is registered before b, since [Object.keys] lists
    array indices first; and with the single export a and the hint
    [a, toString], the method that every object inherits from
    [Object.prototype] is registered as a story, although the file exports
    nothing of that name. *)
Theorem hinted_order_divergence :
  let stories_of file :=
    added_stories
      (events_of (load_unit (ext := sample_csf) "react" [(file, VStr "./file.js")] []
                            file initial_state)) in
  (obj_keys (story_exports (ext := sample_csf) abc_file) = ["c"; "a"] /\
   stories_of abc_file = [fn 13 "c"; fn 11 "a"]) /\
  (get_opt numbered_file "__namedExportsOrder" = VArr 114 [VStr "b"; VStr "1"] /\
   obj_keys (story_exports (ext := sample_csf) numbered_file) = ["1"; "b"] /\
   stories_of numbered_file = [fn 112 "one"; fn 113 "b"]) /\
  (obj_lookup "toString" (own_props inherited_file) = None /\
   obj_keys (story_exports (ext := sample_csf) inherited_file) = ["a"; "toString"] /\
   stories_of inherited_file = [fn 122 "a"; VBuiltin "toString"]).
Proof. vm_compute. repeat split. Qed.

(* ================================================================== *)
(** * The entrypoint *)
(* ================================================================== *)

Section Entrypoint.

Context {ext : Externals}.

Lemma after_notice_loaded (d : deprecation) (s : state) :
  loaded (after_notice d s) = loaded s.
Proof. unfold after_notice. destruct (warned d s); [reflexivity | now destruct d]. Qed.

Lemma loadCsf_run (framework : string) (loadable : Loadable) (m : NodeModule)
    (show : bool) (s : state) :
  rejected_module m = false ->
  let o := loadStories loadable framework (prologue_state m show s) in
  loadCsf framework loadable m show s =
  (prologue_events m show s ++ events_of o, state_of o, result_of o).
Proof.
  intros Hm o. subst o. unfold loadCsf, prologue_events, prologue_state, configure.
  set (s1 := if show then after_notice ConfigureDeprecated s else s).
  assert (H1 : (if show then configureDeprecationWarning else ret tt) s =
               (if show then notice_events ConfigureDeprecated s else [], s1, Ok tt)).
  { subst s1. destruct show; [|reflexivity].
    unfold configureDeprecationWarning. rewrite deprecate_run. simpl.
    now rewrite app_nil_r. }
  rewrite (bind_ok _ _ _ _ _ _ H1). cbn beta.
  assert (Hl : loaded s1 = loaded s).
  { subst s1. destruct show; [apply after_notice_loaded | reflexivity]. }
  destruct m as [str| |data]; [discriminate| |].
  - rewrite (bind_ok _ _ s1 s1 [] tt) by reflexivity. cbn beta.
    rewrite (bind_ok _ _ s1 s1 [] (loaded s1)) by reflexivity. cbn beta.
    rewrite (bind_ok _ _ s1 s1
               (if loaded s then [LoggerWarn UnexpectedLoadedState] else []) tt)
      by (rewrite Hl; now destruct (loaded s)).
    cbn beta.
    rewrite (bind_ok _ _ s1 (set_loaded true s1) [] tt) by reflexivity. cbn beta.
    simpl. now rewrite <- !app_assoc.
  - set (s2 := set_previousExports (restored_exports data) s1).
    rewrite (bind_ok _ _ s1 s2 [HotDispose; HotAccept] tt) by reflexivity. cbn beta.
    rewrite (bind_ok _ _ s2 s2 [] (loaded s2)) by reflexivity. cbn beta.
    rewrite (bind_ok _ _ s2 s2
               (if loaded s then [LoggerWarn UnexpectedLoadedState] else []) tt)
      by (subst s2; simpl; rewrite Hl; now destruct (loaded s)).
    cbn beta.
    rewrite (bind_ok _ _ s2 (set_loaded true s2) [] tt) by reflexivity. cbn beta.
    simpl. now rewrite <- !app_assoc.
Qed.

Lemma loadCsf_sets_loaded (framework : string) (loadable : Loadable) (m : NodeModule)
    (show : bool) (s : state) :
  rejected_module m = false ->
  loaded (state_of (loadCsf framework loadable m show s)) = true.
Proof.
  intros Hm. rewrite (loadCsf_run _ _ _ _ _ Hm). cbn [state_of fst snd].
  rewrite loadStories_keeps_loaded. reflexivity.
Qed.

End Entrypoint.

(* ================================================================== *)
(** * The duplicate-title advisory *)
(* ================================================================== *)

Section Duplicates.

Context {ext : Externals}.

Lemma remove_phase_events (Q : event -> Prop) (units : list value) (s : state) :
  (forall t, Q (RemoveStoryKind t)) ->
  Forall Q (events_of (for_each remove_unit units s)).
Proof.
  intros HQ.
  apply (respects_for_each (fun _ ev _ => Forall Q ev)); auto.
  - intros. now apply Forall_app.
  - intros exp _. apply (respects_remove_unit _) with (ok := Q); auto.
    intros. now apply Forall_app.
Qed.

Lemma load_unit_duplicate_warnings (framework : string) (cur : exports_map)
    (seen : list value) (u : value) (s s1 : state) (ev : list event)
    (seen1 : list value) :
  load_unit framework cur seen u s = (ev, s1, Ok seen1) ->
  count_events is_duplicate_title_warning ev =
    match declared_title u with
    | Some t => if set_has seen t then 1 else 0
    | None => 0
    end /\
  seen1 = match declared_title u with
          | Some t => set_add seen t
          | None => seen
          end.
Proof.
  unfold declared_title, has_default, get_opt.
  destruct (get u "default") as [meta|e] eqn:Hget.
  2:{ unfold load_unit. rewrite Hget. discriminate. }
  destruct (truthy meta) eqn:Hmeta.
  2:{ unfold load_unit. rewrite Hget.
      rewrite (bind_ok _ _ s s [] meta) by reflexivity. cbn beta.
      rewrite Hmeta. simpl. intros [= <- _ <-]. auto. }
  destruct (has_title meta) eqn:Htitle.
  2:{ rewrite (load_unit_without_title _ _ _ _ _ _ Hget Hmeta Htitle). discriminate. }
  rewrite (load_unit_run _ _ _ _ _ _ Hget Hmeta Htitle).
  fold (get_opt meta "title").
  set (t := get_opt meta "title").
  set (pre := duplicate_step seen t s).
  destruct (register_kind framework (map_get cur u) meta t (story_exports u) (state_of pre))
    as [[evk sk] [[]|e]] eqn:Hk; cbn [events_of state_of result_of fst snd];
    [|discriminate].
  intros [= <- _ <-]. split; [|reflexivity].
  rewrite count_events_app.
  assert (Hnone : count_events is_duplicate_title_warning evk = 0).
  { apply count_events_none.
    change evk with (events_of (evk, sk, @Ok unit tt)). rewrite <- Hk.
    apply register_kind_events.
    - now intros [[]| | | | | | | | |].
    - reflexivity. }
  rewrite Hnone, Nat.add_0_r. subst pre. rewrite duplicate_step_run.
  cbn [events_of fst]. destruct (set_has seen t); [|reflexivity].
  rewrite count_events_app, (notice_events_count is_duplicate_title_warning)
    by reflexivity.
  reflexivity.
Qed.

Lemma add_phase_duplicate_warnings (framework : string) (cur : exports_map)
    (units seen seen' : list value) (s : state) :
  result_of (for_each_acc (load_unit framework cur) units seen s) = Ok seen' ->
  count_events is_duplicate_title_warning
    (events_of (for_each_acc (load_unit framework cur) units seen s)) =
  duplicate_count seen units.
Proof.
  revert seen s. induction units as [|u units IH]; intros seen s; simpl.
  - reflexivity.
  - rewrite bind_run.
    destruct (load_unit framework cur seen u s) as [[ev s1] [seen1|e]] eqn:Hu;
      cbn [events_of result_of fst snd]; [|discriminate].
    intros Hrest. rewrite count_events_app, (IH _ _ Hrest).
    destruct (load_unit_duplicate_warnings _ _ _ _ _ _ _ _ Hu) as [Hc ->].
    rewrite Hc. now destruct (declared_title u).
Qed.

(** The deprecation notice of the duplicate-title wrapper is printed at
    most once, whatever the process does. *)
Lemma loadCsf_notice_once (framework : string) (loadable : Loadable) (m : NodeModule)
    (show : bool) (s : state) :
  let o := loadCsf framework loadable m show s in
  count_events is_duplicate_notice (events_of o) + Nat.b2n (duplicateKindWarned s)
  <= Nat.b2n (duplicateKindWarned (state_of o)).
Proof.
  apply (respects_loadCsf
           (fun s0 ev s1 =>
              count_events is_duplicate_notice ev + Nat.b2n (duplicateKindWarned s0)
              <= Nat.b2n (duplicateKindWarned s1)))
    with (ok := fun e => is_duplicate_notice e = false).
  - intros s0. simpl. lia.
  - intros s0 ev s1 ev' s2 H1 H2. rewrite count_events_app. lia.
  - intros e s0 He. rewrite count_events_cons, He. simpl. lia.
  - intros d s0 Hw. rewrite count_events_cons.
    destruct d; simpl in *; try lia. rewrite Hw. simpl. lia.
  - now intros [[]| | | | | | | | |].
  - intros m0 s0. simpl. lia.
  - repeat split.
  - intros b s0. simpl. lia.
Qed.

End Duplicates.

Lemma lifetime_notice_once (acts : list action) (registered : bool) (s : state) :
  count_events is_duplicate_notice (fst (run_lifetime acts registered s))
  + Nat.b2n (duplicateKindWarned s) <= 1.
Proof.
  revert registered s. induction acts as [|[ext' framework loadable m show|] acts IH];
    intros registered s; simpl.
  - destruct (duplicateKindWarned s); simpl; lia.
  - pose proof (@loadCsf_notice_once ext' framework loadable m show s) as H1.
    simpl in H1.
    specialize (IH (registered || registers_dispose m)
                   (state_of (loadCsf framework loadable m show s))).
    destruct (run_lifetime acts _ _) as [ev s']. simpl in *.
    rewrite count_events_app. lia.
  - destruct registered; [|apply IH].
    specialize (IH false (fst (dispose_callback s))). simpl in *. exact IH.
Qed.

Section DuplicateAdvisory.

Context {ext : Externals}.

(** C6, amended. In a pass that completes, the "Duplicate title" warning is
    logged once for every added unit whose title was already declared by an
    added unit processed earlier in that same pass: a title declared by k
    added units of one pass gives k-1 warnings, and units that share a title
    but are added in different passes give none. The deprecation notice that
    accompanies the warning is printed at most once in the life of the
    process. *)
Theorem duplicate_title_advisory (framework : string) (current : exports_map)
    (s : state) :
  result_of (reconcile framework current s) = Ok tt ->
  count_events is_duplicate_title_warning (events_of (reconcile framework current s)) =
    duplicate_count [] (added (previousExports s) current) /\
  (forall acts registered s',
     count_events is_duplicate_notice (fst (run_lifetime acts registered s'))
     + Nat.b2n (duplicateKindWarned s') <= 1).
Proof.
  intros Hok. split; [|intros; apply lifetime_notice_once].
  revert Hok. unfold reconcile.
  rewrite (bind_ok _ _ s s [] (previousExports s)) by reflexivity. cbn beta.
  cbn [events_of result_of fst snd app]. rewrite bind_run.
  unfold diff_and_register. rewrite bind_run.
  pose proof (remove_phase_events (fun e => is_duplicate_title_warning e = false)
                (removed (previousExports s) current) s (fun _ => eq_refl)) as Hrm.
  destruct (for_each remove_unit (removed (previousExports s) current) s)
    as [[evr sr] [[]|e]]; cbn [events_of result_of state_of fst snd] in *;
    [|discriminate].
  pose proof (add_phase_duplicate_warnings framework current
                (added (previousExports s) current) []) as Hadd.
  destruct (for_each_acc (load_unit framework current)
              (added (previousExports s) current) [] sr) as [[eva sa] [seen'|e]] eqn:Ha;
    cbn [events_of result_of state_of fst snd] in *; [|discriminate].
  intros _. specialize (Hadd seen' sr). rewrite Ha in Hadd.
  cbn [events_of result_of fst snd] in Hadd.
  rewrite !count_events_app, (count_events_none _ _ Hrm), (Hadd eq_refl).
  unfold modify. cbn [events_of fst]. change (count_events is_duplicate_title_warning [])
    with 0. lia.
Qed.

End DuplicateAdvisory.

(* ================================================================== *)
(** * The statements at concrete files *)
(* ================================================================== *)


(** The second of three added files has a default export without title. *)
Lemma missing_title_witness :
  let o := reconcile (ext := sample_csf) "react" exports_with_untitled initial_state in
  added (previousExports initial_state) exports_with_untitled =
    [button_file 100] ++ untitled_file :: [button_file 200] /\
  get untitled_file "default" = Ok untitled_meta /\
  truthy untitled_meta = true /\
  has_title untitled_meta = false /\
  result_of o = Err (DefaultExportWithoutTitle untitled_meta) /\
  count_events (registers_kind "Button") (events_of o) = 1 /\
  previousExports (state_of o) = [].
Proof.
  intros o.
  assert (H1 : added (previousExports initial_state) exports_with_untitled =
               [button_file 100] ++ untitled_file :: [button_file 200]) by reflexivity.
  assert (H2 : get untitled_file "default" = Ok untitled_meta) by reflexivity.
  assert (H3 : truthy untitled_meta = true) by reflexivity.
  assert (H4 : has_title untitled_meta = false) by reflexivity.
  destruct (missing_title_aborts_pass (ext := sample_csf) "react" exports_with_untitled
              initial_state [button_file 100] [button_file 200] untitled_file
              untitled_meta [VStr "Button"] H1 H2 H3 H4 eq_refl)
    as (R1 & R2 & _ & R4 & _).
  split; [exact H1|]. split; [exact H2|]. split; [exact H3|]. split; [exact H4|].
  split; [exact R1|]. split; [|exact R4].
  unfold o. rewrite R2. reflexivity.
Defined.

(** A story with [parameters.foo = 1] and legacy [story.parameters.foo = 2]. *)
Lemma merged_annotations_witness :
  let exports := [("Basic", both_styles_story)] in
  let o := register_story (ext := sample_csf) (VStr "Card") card_meta exports "Basic"
                          initial_state in
  exists name params,
    In (KindAdd (VStr "Card") name both_styles_story params) (events_of o) /\
    obj_lookup "foo" (sp_parameters params) = Some (VNum 1) /\
    obj_lookup "bar" (sp_parameters params) = Some (VNum 3) /\
    sp_decorators params = [fn 44 "own"; fn 48 "legacy"].
Proof.
  intros exports o.
  destruct (merged_annotations (ext := sample_csf) (VStr "Card") card_meta exports "Basic"
              (get_opt both_styles_story "story") [fn 44 "own"] [fn 48 "legacy"]
              initial_state eq_refl eq_refl eq_refl eq_refl eq_refl)
    as (name & params & He & _ & Hp & _ & _ & Hd).
  exists name, params. split.
  - unfold o. rewrite He. right. right. left. reflexivity.
  - rewrite !Hp. repeat split. exact Hd.
Defined.

(** The same story has neither [storyName] nor a legacy name. *)
Lemma display_name_witness :
  let exports := [("Basic", both_styles_story)] in
  let o := register_story (ext := sample_csf) (VStr "Card") card_meta exports "Basic"
                          initial_state in
  exists params,
    In (KindAdd (VStr "Card") (VStr "Basic") both_styles_story params) (events_of o).
Proof.
  intros exports o.
  destruct (display_name_rule (ext := sample_csf) (VStr "Card") card_meta exports "Basic"
              (get_opt both_styles_story "story") [fn 44 "own"] [fn 48 "legacy"]
              initial_state eq_refl eq_refl eq_refl eq_refl)
    as (name & params & Hin & _ & _ & _ & Hslug).
  assert (Hname : name = VStr "Basic") by exact (Hslug eq_refl eq_refl).
  exists params. rewrite <- Hname. exact Hin.
Defined.

(** A file with a default export and no named export. *)
Lemma no_exported_stories_witness :
  let o := load_unit (ext := sample_csf) "react" [(panel_file, VStr "./Panel.js")] []
                     panel_file initial_state in
  obj_keys (story_exports (ext := sample_csf) panel_file) = [] /\
  In (LoggerWarn (NoExportedStories (VStr "Panel"))) (events_of o) /\
  In (StoriesOf (VStr "Panel")) (events_of o) /\
  result_of o = Ok [VStr "Panel"].
Proof.
  intros o.
  destruct (no_exported_stories_warning (ext := sample_csf) "react"
              [(panel_file, VStr "./Panel.js")] [] panel_file panel_meta []
              initial_state eq_refl eq_refl eq_refl eq_refl) as (Hempty & _).
  destruct (Hempty eq_refl) as (He & Hr & _).
  split; [reflexivity|]. unfold o. rewrite He.
  split; [|split; [|exact Hr]].
  - apply in_or_app. right. apply in_or_app. right. left. reflexivity.
  - apply in_or_app. right. left. reflexivity.
Defined.

(** The kind's own parameters name [framework] and [args]. *)
Lemma kind_parameters_witness :
  let bag := kind_parameters "react" (VStr "./Panel.js") panel_meta in
  In (KindAddParameters (VStr "Panel") bag)
     (events_of (load_unit (ext := sample_csf) "react" [(panel_file, VStr "./Panel.js")]
                           [] panel_file initial_state)) /\
  obj_lookup "framework" bag = Some (VStr "custom") /\
  obj_lookup "args" bag = Some (VObj 83 [("size", VNum 2)]) /\
  obj_lookup "fileName" bag = Some (VStr "./Panel.js").
Proof.
  intros bag.
  destruct (kind_parameters_precedence (ext := sample_csf) "react"
              [(panel_file, VStr "./Panel.js")] [] panel_file panel_meta initial_state
              eq_refl eq_refl eq_refl)
    as (H1 & H2 & _ & H4 & _ & _ & _ & H8).
  split; [exact H1|]. split; [|split; [exact H2 | apply H8; reflexivity]].
  apply (H4 "framework" (VStr "custom")); [discriminate | discriminate | reflexivity].
Defined.

(** Three files with the same title added in one pass. *)
Lemma duplicate_title_witness :
  let o := reconcile (ext := sample_csf) "react" exports_ABC initial_state in
  result_of o = Ok tt /\
  count_events is_duplicate_title_warning (events_of o) = 2 /\
  count_events is_duplicate_notice
    (fst (run_lifetime lifetime_one_pass false initial_state)) <= 1.
Proof.
  intros o.
  destruct (duplicate_title_advisory (ext := sample_csf) "react" exports_ABC
              initial_state eq_refl) as (H1 & H2).
  split; [reflexivity|]. split; [exact H1|].
  specialize (H2 lifetime_one_pass false initial_state).
  change (Nat.b2n (duplicateKindWarned initial_state)) with 0 in H2.
  rewrite Nat.add_0_r in H2. exact H2.
Defined.

(* ================================================================== *)
(** * Where the specification and the code part *)
(* ================================================================== *)

(** C6 as stated fails. File A (title "Button") is loaded, and after a hot
    reload (which hands the snapshot of the first pass to the second) file B
    (title "Button") is loaded next to it: both kinds are
    registered and no duplicate-title warning or notice is ever issued,
    where the statement promises exactly one. Files A, B and C (all titled
    "Button") loaded in one pass give two "Duplicate title" warnings, where
    the statement promises at most one. *)
Lemma duplicate_advisory_counterexample :
  let across := fst (run_lifetime lifetime_across_passes false initial_state) in
  let within := fst (run_lifetime lifetime_one_pass false initial_state) in
  snd (dispose_callback
         (snd (run_lifetime (firstn 1 lifetime_across_passes) false initial_state)))
    = Data (Some files_A_snapshot) /\
  (count_events (registers_kind "Button") across = 2 /\
   count_events is_duplicate_title_warning across = 0 /\
   count_events is_duplicate_notice across = 0) /\
  (count_events (registers_kind "Button") within = 3 /\
   count_events is_duplicate_title_warning within = 2).
Proof. vm_compute. repeat split. Qed.

(** C7 as stated fails. The file's only named export is excluded by the
    recognition predicate, so its kind has no recognized entry; the unit
    completes, the kind is registered, and no warning is logged. *)
Lemma unrecognized_exports_counterexample :
  let o := load_unit (ext := sample_csf) "react" [(helper_file, VStr "./helper.js")] []
                     helper_file initial_state in
  recognized_entries (ext := sample_csf) helper_file = [] /\
  result_of o = Ok [VStr "Form"] /\
  count_events (registers_kind "Form") (events_of o) = 1 /\
  count_events is_kind_add (events_of o) = 0 /\
  count_events is_no_stories_warning (events_of o) = 0.
Proof. vm_compute. repeat split. Qed.

(** C8 as stated fails. The export supplies the empty [storyName] and its
    legacy annotation supplies the name "Legacy"; it is registered under the
    name derived from its key, which is neither the explicit name nor the
    legacy name, whether "supplied" is read as "truthy" or as "defined". *)
Lemma display_name_counterexample :
  let o := register_story (ext := sample_csf) (VStr "Card") card_meta
                          [("Primary", unnamed_story)] "Primary" initial_state in
  map (fun e => match e with KindAdd _ name _ _ => name | _ => VNull end)
      (filter is_kind_add (events_of o)) = [VStr "Primary"] /\
  stated_display_name (ext := sample_csf) truthy unnamed_story "Primary" = VStr "Legacy" /\
  stated_display_name (ext := sample_csf) is_defined unnamed_story "Primary" = VStr "".
Proof. vm_compute. repeat split. Qed.

(* ================================================================== *)
(** * The loading phase *)
(* ================================================================== *)

Lemma same_value_zero_refl (x : value) : same_value_zero x x = true.
Proof.
  destruct x; simpl; try reflexivity.
  - now destruct b.
  - apply Z.eqb_refl.
  - apply String.eqb_refl.
  - apply Nat.eqb_refl.
  - apply Nat.eqb_refl.
  - apply Nat.eqb_refl.
  - apply String.eqb_refl.
Qed.

Lemma map_keys_set (m : exports_map) (k v : value) :
  map_keys (map_set m k v) = if map_has m k then map_keys m else map_keys m ++ [k].
Proof.
  unfold map_has, map_keys. induction m as [|[k0 v0] m IH]; simpl.
  - reflexivity.
  - destruct (same_value_zero k k0); simpl; [reflexivity|].
    rewrite IH. now destruct (existsb (same_value_zero k) (map fst m)).
Qed.

Lemma map_has_set (m : exports_map) (k v q : value) :
  map_has (map_set m k v) q = same_value_zero q k || map_has m q.
Proof.
  unfold map_has at 1. rewrite map_keys_set.
  destruct (map_has m k) eqn:Hk.
  - fold (map_has m q).
    destruct (same_value_zero q k) eqn:E; [|reflexivity].
    simpl. rewrite (map_has_congr m q k E). exact Hk.
  - rewrite existsb_app. simpl. fold (map_has m q).
    rewrite Bool.orb_false_r. apply Bool.orb_comm.
Qed.

Lemma map_get_set (m : exports_map) (k v q : value) :
  map_get (map_set m k v) q = if same_value_zero q k then v else map_get m q.
Proof.
  induction m as [|[k0 v0] m IH]; simpl.
  - reflexivity.
  - destruct (same_value_zero k k0) eqn:Ek; simpl.
    + destruct (same_value_zero q k0) eqn:Eq.
      * rewrite (same_value_zero_sym k k0) in Ek.
        now rewrite (same_value_zero_trans q k0 k Eq Ek).
      * destruct (same_value_zero q k) eqn:Eqk; [|reflexivity].
        now rewrite (same_value_zero_trans q k k0 Eqk Ek) in Eq.
    + destruct (same_value_zero q k0) eqn:Eq; [|exact IH].
      destruct (same_value_zero q k) eqn:Eqk; [|reflexivity].
      rewrite (same_value_zero_sym q k) in Eqk.
      now rewrite (same_value_zero_trans k q k0 Eqk Eq) in Ek.
Qed.

Lemma distinct_keys_snoc (l : list value) (k : value) :
  distinct_keys l = true -> existsb (same_value_zero k) l = false ->
  distinct_keys (l ++ [k]) = true.
Proof.
  induction l as [|x l IH]; simpl; intros Hl Hk.
  - reflexivity.
  - apply Bool.andb_true_iff in Hl. destruct Hl as [Hx Hl].
    apply Bool.orb_false_iff in Hk. destruct Hk as [Hkx Hk].
    rewrite existsb_app. simpl. rewrite (same_value_zero_sym x k), Hkx.
    rewrite Bool.orb_false_r, Hx. simpl. now apply IH.
Qed.

Lemma map_set_distinct (m : exports_map) (k v : value) :
  distinct_keys (map_keys m) = true ->
  distinct_keys (map_keys (map_set m k v)) = true.
Proof.
  intros Hm. rewrite map_keys_set. destruct (map_has m k) eqn:Hk; [exact Hm|].
  now apply distinct_keys_snoc.
Qed.

Lemma map_of_entries_distinct (entries : list (value * value)) (m : exports_map) :
  distinct_keys (map_keys m) = true ->
  distinct_keys (map_keys (map_of_entries entries m)) = true.
Proof.
  revert m. induction entries as [|[k v] entries IH]; intros m Hm; simpl.
  - exact Hm.
  - apply IH. now apply map_set_distinct.
Qed.

Lemma map_of_entries_has (entries : list (value * value)) (m : exports_map) (q : value) :
  map_has (map_of_entries entries m) q =
  map_has m q || existsb (same_value_zero q) (map fst entries).
Proof.
  revert m. induction entries as [|[k v] entries IH]; intros m; simpl.
  - now rewrite Bool.orb_false_r.
  - unfold map_of_entries in *. simpl. rewrite IH, map_has_set.
    destruct (same_value_zero q k), (map_has m q); reflexivity.
Qed.

Lemma distinct_filter (f : value -> bool) (l : list value) :
  distinct_keys l = true -> distinct_keys (filter f l) = true.
Proof.
  induction l as [|x l IH]; simpl; intros Hl.
  - reflexivity.
  - apply Bool.andb_true_iff in Hl. destruct Hl as [Hx Hl].
    destruct (f x); simpl; [|now apply IH].
    rewrite (IH Hl), Bool.andb_true_r.
    apply Bool.negb_true_iff in Hx. apply Bool.negb_true_iff.
    clear IH Hl. induction l as [|y l IH]; simpl in *; [reflexivity|].
    apply Bool.orb_false_iff in Hx. destruct Hx as [Hy Hx].
    destruct (f y); simpl; [rewrite Hy|]; now apply IH.
Qed.



Lemma for_each_acc_map {A B C} (f : B -> A -> M B) (g : C -> A) (l : list C) (b : B)
    (s : state) :
  for_each_acc f (map g l) b s = for_each_acc (fun b x => f b (g x)) l b s.
Proof.
  revert b s. induction l as [|x l IH]; intros b s; simpl.
  - reflexivity.
  - rewrite !bind_run. destruct (f b (g x) s) as [[ev s1] [b1|e]]; [|reflexivity].
    now rewrite IH.
Qed.

Section LoadingRun.

Context {ext : Externals}.

Lemma load_file_run (req : RequireContext) (cur : exports_map) (filename : string)
    (s : state) :
  load_file req cur filename s =
  match file_outcome req filename with
  | Ok entry => ([], s, Ok (map_set cur (fst entry) (snd entry)))
  | Err e =>
      match conversion_failure e with
      | None => ([LoggerWarn (UnexpectedLoadError filename e)], s, Ok cur)
      | Some t => ([], s, Err t)
      end
  end.
Proof.
  unfold load_file, file_outcome, warn_load_error.
  destruct (rc_require req filename) as [fileExports|e].
  - destruct (match rc_resolve req with
              | Some resolve => resolve filename
              | None => Ok (VStr filename)
              end) as [path|e]; [reflexivity|].
    now destruct (conversion_failure e).
  - now destruct (conversion_failure e).
Qed.

(** The loop over the files of a list: the files before the first failure
    of a catch block are handled, and that failure ends the loop. *)
Lemma load_files_run (files : list (RequireContext * string)) (cur : exports_map)
    (s : state) :
  for_each_acc (fun cur rf => load_file (fst rf) cur (snd rf)) files cur s =
  (file_warnings (handled files), s,
   match loading_failure files with
   | None => Ok (map_of_entries (file_entries files) cur)
   | Some t => Err t
   end).
Proof.
  revert cur. induction files as [|[req f] files IH]; intros cur; simpl.
  - reflexivity.
  - rewrite bind_run, load_file_run. unfold handler_failure. simpl.
    unfold file_warnings, file_entries in *. simpl.
    destruct (file_outcome req f) as [[k v]|e] eqn:Hout.
    + simpl. rewrite Hout. rewrite IH. reflexivity.
    + destruct (conversion_failure e) as [t|]; [reflexivity|].
      simpl. rewrite Hout. rewrite IH. reflexivity.
Qed.

Lemma load_reqs_flat (reqs : list RequireContext) (cur : exports_map) (s : state) :
  for_each_acc load_req reqs cur s =
  for_each_acc (fun cur rf => load_file (fst rf) cur (snd rf)) (files_of reqs) cur s.
Proof.
  revert cur s. induction reqs as [|req reqs IH]; intros cur s; simpl.
  - reflexivity.
  - rewrite for_each_acc_app, !bind_run. unfold load_req at 1.
    rewrite for_each_acc_map. simpl.
    destruct (for_each_acc _ (rc_keys req) cur s) as [[ev s1] [cur1|e]]; [|reflexivity].
    now rewrite IH.
Qed.

Lemma load_reqs_run (reqs : list RequireContext) (cur : exports_map) (s : state) :
  for_each_acc load_req reqs cur s =
  (file_warnings (handled (files_of reqs)), s,
   match loading_failure (files_of reqs) with
   | None => Ok (map_of_entries (file_entries (files_of reqs)) cur)
   | Some t => Err t
   end).
Proof. rewrite load_reqs_flat. apply load_files_run. Qed.






End LoadingRun.

Lemma added_from_empty (cur : exports_map) : added [] cur = map_keys cur.
Proof.
  unfold added, map_keys. induction cur as [|[k v] cur IH]; simpl.
  - reflexivity.
  - f_equal. exact IH.
Qed.

Lemma removed_to_empty_snapshot (cur : exports_map) : removed [] cur = [].
Proof. reflexivity. Qed.

Lemma every_has_default_spec (items : list value) :
  Forall (fun x => nullish x = false) items ->
  every_has_default items = Ok (forallb has_nonnull_default items).
Proof.
  induction 1 as [|x items Hx _ IH]; simpl.
  - reflexivity.
  - unfold has_nonnull_default at 1. rewrite (get_not_nullish _ _ Hx), IH.
    now destruct (get_opt x "default").
Qed.

Lemma map_of_exported_entries (items : list value) :
  map_of_exported items = map_of_entries (map (fun x => (x, VNull)) items) [].
Proof.
  unfold map_of_exported, map_of_entries. generalize ([] : exports_map).
  induction items as [|x items IH]; intros m; simpl; [reflexivity | apply IH].
Qed.

Lemma map_of_exported_null (items : list value) (q : value) :
  map_has (map_of_exported items) q = true ->
  map_get (map_of_exported items) q = VNull.
Proof.
  unfold map_of_exported.
  assert (H : forall m, (map_has m q = true -> map_get m q = VNull) ->
              map_has (fold_left (fun m x => map_set m x VNull) items m) q = true ->
              map_get (fold_left (fun m x => map_set m x VNull) items m) q = VNull).
  { induction items as [|x items IH]; intros m Hm; simpl; [exact Hm|].
    apply IH. rewrite map_has_set, map_get_set.
    destruct (same_value_zero q x); [reflexivity | exact Hm]. }
  apply H. discriminate.
Qed.

Section Loading.

Context {ext : Externals}.

Lemma load_exported_cases (exported : value) (s : state) :
  (exists cur, load_exported exported s = ([], s, Ok cur) /\
               (cur = [] \/ exists a items, exported = VArr a items /\
                                            cur = map_of_exported items)) \/
  load_exported exported s = ([LoggerWarn (LoaderFunctionMisuse exported)], s, Ok []) \/
  (exists e, load_exported exported s = ([], s, Err e)).
Proof.
  unfold load_exported.
  destruct exported; simpl;
    try (left; exists []; split; [reflexivity | now left]);
    try (right; left; reflexivity).
  - destruct b; [right; left; reflexivity|].
    left. exists []. split; [reflexivity | now left].
  - destruct (n =? 0)%Z; simpl; [|right; left; reflexivity].
    left. exists []. split; [reflexivity | now left].
  - destruct (s0 =? ""); simpl; [|right; left; reflexivity].
    left. exists []. split; [reflexivity | now left].
  - destruct (every_has_default items) as [[]|e] eqn:He.
    + left. exists (map_of_exported items). split; [reflexivity|].
      right. now exists a, items.
    + right. left. reflexivity.
    + right. right. now exists e.
Qed.

(** The loading phase leaves the module state alone and only logs. *)
Lemma collect_exports_quiet (loadable : Loadable) (s : state) :
  state_of (collect_exports loadable s) = s /\
  Forall collect_event (events_of (collect_exports loadable s)).
Proof.
  assert (Hwarn : forall files, Forall collect_event (file_warnings files)).
  { intros files. apply Forall_forall. intros e He. unfold file_warnings in He.
    apply in_flat_map in He. destruct He as (rf & _ & He).
    destruct (file_outcome (fst rf) (snd rf)); [contradiction|].
    destruct He as [<-|[]]. exact I. }
  destruct loadable as [reqs|req|call]; simpl.
  - rewrite load_reqs_run. simpl. split; [reflexivity | apply Hwarn].
  - change (for_each_acc load_req [req] [] s) with
      (bind (load_req [] req) (fun b1 => ret b1) s).
    fold (for_each_acc load_req [req] [] s). rewrite load_reqs_run. simpl.
    split; [reflexivity | apply Hwarn].
  - destruct call as [exported|e]; [|split; [reflexivity | constructor]].
    rewrite (bind_ok _ _ s s [] exported) by reflexivity. simpl.
    destruct (load_exported_cases exported s) as [(cur & -> & _)|[->|(e & ->)]]; simpl;
      split; try reflexivity; repeat constructor.
Qed.

(** X2. Whatever the loadable, the current set never holds the same export
    object twice (keys are compared by identity), so no unit is registered
    twice in one pass. *)
Theorem current_exports_distinct (loadable : Loadable) (s : state)
    (cur : exports_map) :
  result_of (collect_exports loadable s) = Ok cur ->
  distinct_keys (map_keys cur) = true /\
  (forall previous, distinct_keys (added previous cur) = true) /\
  (forall previous, distinct_keys (map_keys previous) = true ->
                    distinct_keys (removed previous cur) = true).
Proof.
  intros Hcur.
  assert (Hd : distinct_keys (map_keys cur) = true).
  { assert (Hreqs : forall reqs,
              result_of (for_each_acc load_req reqs [] s) = Ok cur ->
              distinct_keys (map_keys cur) = true).
    { intros reqs H. rewrite load_reqs_run in H. simpl in H.
      destruct (loading_failure (files_of reqs)); [discriminate|].
      injection H as <-. now apply map_of_entries_distinct. }
    destruct loadable as [reqs|req|call]; cbn [collect_exports] in Hcur.
    - now apply (Hreqs reqs).
    - now apply (Hreqs [req]).
    - simpl in Hcur. destruct call as [exported|e]; [|discriminate].
      rewrite (bind_ok _ _ s s [] exported) in Hcur by reflexivity. simpl in Hcur.
      destruct (load_exported_cases exported s)
        as [(cur' & H & Hc)|[H|(e & H)]]; rewrite H in Hcur; simpl in Hcur;
        try discriminate; injection Hcur as <-; try reflexivity.
      destruct Hc as [->|(a & items & _ & ->)]; [reflexivity|].
      rewrite map_of_exported_entries. now apply map_of_entries_distinct. }
  split; [exact Hd|]. split.
  - intros previous. unfold added. now apply distinct_filter.
  - intros previous Hp. unfold removed. now apply distinct_filter.
Qed.


(** X4. What a loader function returns decides the current set as a whole:
    a falsy value (in particular [undefined]) gives the empty set silently;
    an array whose elements all have a non-null [default] gives exactly
    those elements, each with the path [null]; any other array of objects,
    and any other truthy value, gives one warning and the empty set, so that
    not even the well-formed elements are registered; an exception thrown by
    the loader leaves through the pass. *)
Theorem loader_function_result (s : state) :
  (forall exported, truthy exported = false ->
     collect_exports (LoadableFunction (Ok exported)) s = ([], s, Ok [])) /\
  (forall a items, Forall (fun x => nullish x = false) items ->
     collect_exports (LoadableFunction (Ok (VArr a items))) s =
     if forallb has_nonnull_default items
     then ([], s, Ok (map_of_exported items))
     else ([LoggerWarn (LoaderFunctionMisuse (VArr a items))], s, Ok [])) /\
  (forall exported, truthy exported = true ->
     (forall a items, exported <> VArr a items) ->
     collect_exports (LoadableFunction (Ok exported)) s =
     ([LoggerWarn (LoaderFunctionMisuse exported)], s, Ok [])) /\
  (forall items unit, map_has (map_of_exported items) unit = true ->
     map_get (map_of_exported items) unit = VNull) /\
  (forall e framework,
     loadStories (LoadableFunction (Err e)) framework s = ([], s, Err e)).
Proof.
  split; [|split; [|split; [|split]]].
  - intros exported Hf. simpl.
    rewrite (bind_ok _ _ s s [] exported) by reflexivity. unfold load_exported.
    destruct exported; simpl in *; try discriminate; try reflexivity; now rewrite Hf.
  - intros a items Hitems. simpl.
    rewrite (bind_ok _ _ s s [] (VArr a items)) by reflexivity. unfold load_exported.
    rewrite (every_has_default_spec _ Hitems).
    now destruct (forallb has_nonnull_default items).
  - intros exported Ht Harr. simpl.
    rewrite (bind_ok _ _ s s [] exported) by reflexivity. unfold load_exported.
    destruct exported; simpl in *; try discriminate; try reflexivity;
      try (now rewrite Ht).
    exfalso. now apply (Harr a items).
  - apply map_of_exported_null.
  - reflexivity.
Qed.

(** X5. The loading phase makes no call to the story store or the client
    api and leaves the module state as it was; when it throws (the loader
    function throws, or the array it returns holds [null]), the pass ends
    there: nothing is removed, nothing is registered and the snapshot is
    kept. *)
Theorem failed_loading_calls_nothing (loadable : Loadable) (framework : string)
    (s : state) :
  state_of (collect_exports loadable s) = s /\
  count_events is_store_call (events_of (collect_exports loadable s)) = 0 /\
  (forall e, result_of (collect_exports loadable s) = Err e ->
     loadStories loadable framework s = (events_of (collect_exports loadable s), s, Err e)).
Proof.
  destruct (collect_exports_quiet loadable s) as [Hs Hev].
  split; [exact Hs|]. split.
  - apply count_events_none. eapply Forall_impl; [|exact Hev].
    now intros [[]| | | | | | | | |].
  - intros e He. unfold loadStories. rewrite bind_run.
    destruct (collect_exports loadable s) as [[ev s1] r]. simpl in *. now subst.
Qed.

End Loading.

(* ================================================================== *)
(** * Successive passes *)
(* ================================================================== *)

Lemma map_has_self (m : exports_map) (k : value) :
  In k (map_keys m) -> map_has m k = true.
Proof.
  intros Hin. unfold map_has. apply existsb_exists. exists k.
  split; [exact Hin | apply same_value_zero_refl].
Qed.

Lemma map_has_app (m1 m2 : exports_map) (k : value) :
  map_has (m1 ++ m2) k = map_has m1 k || map_has m2 k.
Proof. unfold map_has, map_keys. now rewrite map_app, existsb_app. Qed.

Lemma filter_none {A} (f : A -> bool) (l : list A) :
  (forall x, In x l -> f x = false) -> filter f l = [].
Proof.
  induction l as [|x l IH]; simpl; intros Hf; [reflexivity|].
  rewrite (Hf x (or_introl eq_refl)). apply IH. intros y Hy. apply Hf. now right.
Qed.

Lemma filter_all {A} (f : A -> bool) (l : list A) :
  (forall x, In x l -> f x = true) -> filter f l = l.
Proof.
  induction l as [|x l IH]; simpl; intros Hf; [reflexivity|].
  rewrite (Hf x (or_introl eq_refl)). f_equal. apply IH.
  intros y Hy. apply Hf. now right.
Qed.

Lemma nothing_changed (cur : exports_map) :
  removed cur cur = [] /\ added cur cur = [].
Proof.
  unfold removed, added. split; apply filter_none; intros k Hk;
    now rewrite (map_has_self _ _ Hk).
Qed.

Lemma map_get_fresh (m : exports_map) (k v : value) :
  map_has m k = false -> map_get (m ++ [(k, v)]) k = v.
Proof.
  unfold map_has. induction m as [|[k0 v0] m IH]; simpl; intros Hk.
  - now rewrite same_value_zero_refl.
  - apply Bool.orb_false_iff in Hk. destruct Hk as [Hk0 Hk].
    rewrite Hk0. now apply IH.
Qed.

Lemma distinct_keys_middle (l1 l2 : list value) (u : value) :
  distinct_keys (l1 ++ u :: l2) = true ->
  existsb (same_value_zero u) (l1 ++ l2) = false.
Proof.
  induction l1 as [|x l1 IH]; simpl; intros Hd.
  - apply Bool.andb_true_iff in Hd. destruct Hd as [Hu _].
    now apply Bool.negb_true_iff in Hu.
  - apply Bool.andb_true_iff in Hd. destruct Hd as [Hx Hd].
    apply Bool.negb_true_iff in Hx. rewrite existsb_app in Hx. simpl in Hx.
    apply Bool.orb_false_iff in Hx. destruct Hx as [_ Hx].
    apply Bool.orb_false_iff in Hx. destruct Hx as [Hx _].
    rewrite (same_value_zero_sym u x), Hx. simpl. now apply IH.
Qed.

Section Passes.

Context {ext : Externals}.

(** X6. A pass that completes makes the next pass over the same current
    set a no-op: nothing is removed, nothing is registered again, no
    warning is logged and the state of the module stays as the first pass
    left it. *)
Theorem second_pass_is_silent (framework framework' : string) (cur : exports_map)
    (s : state) :
  result_of (reconcile framework cur s) = Ok tt ->
  let s1 := state_of (reconcile framework cur s) in
  reconcile framework' cur s1 = ([], s1, Ok tt).
Proof.
  intros Hok s1.
  assert (Hprev : previousExports s1 = cur).
  { subst s1. rewrite reconcile_snapshot, Hok. reflexivity. }
  assert (Hs1 : set_previousExports cur s1 = s1).
  { rewrite <- Hprev. now destruct s1. }
  unfold reconcile.
  rewrite (bind_ok _ _ s1 s1 [] (previousExports s1)) by reflexivity. cbn beta.
  rewrite Hprev. unfold diff_and_register.
  destruct (nothing_changed cur) as [-> ->]. simpl.
  unfold bind, ret, modify. simpl. now rewrite Hs1.
Qed.

(** X7. When one file is appended to the set that the snapshot holds, the
    pass is the registration of that file alone, with a fresh set of seen
    titles and the path recorded for it; the snapshot is replaced when that
    registration completes and kept when it throws. *)
Theorem adding_a_file_registers_only_it (framework : string) (unit path : value)
    (s : state) :
  let previous := previousExports s in
  let cur := previous ++ [(unit, path)] in
  let o := load_unit framework cur [] unit s in
  map_has previous unit = false ->
  reconcile framework cur s =
    (events_of o,
     match result_of o with
     | Ok _ => set_previousExports cur (state_of o)
     | Err _ => state_of o
     end,
     match result_of o with
     | Ok _ => Ok tt
     | Err e => Err e
     end) /\
  map_get cur unit = path.
Proof.
  intros previous cur o Hnew. split; [|now apply map_get_fresh].
  assert (Hrem : removed previous cur = []).
  { unfold removed. apply filter_none. intros k Hk. subst cur.
    now rewrite map_has_app, (map_has_self _ _ Hk). }
  assert (Hadd : added previous cur = [unit]).
  { unfold added, cur, map_keys. rewrite map_app, filter_app. simpl. rewrite Hnew. simpl.
    rewrite filter_none; [reflexivity|].
    intros k Hk. now rewrite (map_has_self previous k Hk). }
  unfold reconcile.
  rewrite (bind_ok _ _ s s [] (previousExports s)) by reflexivity. cbn beta.
  fold previous. unfold diff_and_register. rewrite Hrem, Hadd. simpl.
  subst o. unfold bind, ret, modify. simpl.
  destruct (load_unit framework cur [] unit s) as [[ev s1] [seen|e]]; simpl.
  - now rewrite !app_nil_r.
  - reflexivity.
Qed.

(** X8. When one file disappears from a snapshot whose units are distinct,
    the pass makes the removal call owed to that file and nothing else, and
    the snapshot becomes the current set. *)
Theorem deleting_a_file_unregisters_only_it (framework : string)
    (before after : exports_map) (unit path : value) (s : state) :
  previousExports s = before ++ (unit, path) :: after ->
  distinct_keys (map_keys (before ++ (unit, path) :: after)) = true ->
  nullish unit = false ->
  reconcile framework (before ++ after) s =
    (removal_calls unit, set_previousExports (before ++ after) s, Ok tt).
Proof.
  intros Hprev Hd Hunit.
  assert (Hgone : map_has (before ++ after) unit = false).
  { unfold map_has, map_keys in *. rewrite map_app in *. simpl in Hd.
    now apply distinct_keys_middle. }
  assert (Hrem : removed (before ++ (unit, path) :: after) (before ++ after) = [unit]).
  { unfold removed, map_keys. rewrite map_app, filter_app. simpl. rewrite Hgone. simpl.
    rewrite !filter_none; [reflexivity| |].
    - intros k Hk. rewrite map_has_app.
      rewrite (map_has_self after k Hk). now rewrite Bool.orb_true_r.
    - intros k Hk. now rewrite map_has_app, (map_has_self before k Hk). }
  assert (Hadd : added (before ++ (unit, path) :: after) (before ++ after) = []).
  { unfold added. apply filter_none. intros k Hk.
    unfold map_keys in Hk. rewrite map_app in Hk. apply in_app_or in Hk.
    rewrite map_has_app. destruct Hk as [Hk|Hk].
    - now rewrite (map_has_self before k Hk).
    - rewrite (map_has_self ((unit, path) :: after) k); [now rewrite Bool.orb_true_r|].
      now right. }
  unfold reconcile.
  rewrite (bind_ok _ _ s s [] (previousExports s)) by reflexivity. cbn beta.
  rewrite Hprev. unfold diff_and_register. rewrite Hrem, Hadd.
  assert (Hrun : for_each remove_unit [unit] s = (removal_calls unit, s, Ok tt)).
  { rewrite remove_phase_run by (constructor; [exact Hunit | constructor]).
    simpl. now rewrite app_nil_r. }
  rewrite (bind_ok _ _ s s (removal_calls unit) []).
  - simpl. unfold modify. simpl. now rewrite !app_nil_r.
  - rewrite (bind_ok _ _ _ _ _ _ Hrun). simpl. now rewrite app_nil_r.
Qed.

End Passes.

(* ================================================================== *)
(** * The store calls of a pass *)
(* ================================================================== *)

Lemma kinds_removed_app (l1 l2 : list event) :
  kinds_removed (l1 ++ l2) = kinds_removed l1 ++ kinds_removed l2.
Proof. unfold kinds_removed. apply flat_map_app. Qed.

Lemma kinds_created_app (l1 l2 : list event) :
  kinds_created (l1 ++ l2) = kinds_created l1 ++ kinds_created l2.
Proof. unfold kinds_created. apply flat_map_app. Qed.

Lemma kinds_removed_none (l : list event) :
  Forall (fun e => is_remove_call e = false) l -> kinds_removed l = [].
Proof.
  unfold kinds_removed. induction 1 as [|e l He _ IH]; simpl; [reflexivity|].
  rewrite IH. now destruct e.
Qed.

Lemma kinds_created_none (l : list event) :
  Forall (fun e => is_stories_of e = false) l -> kinds_created l = [].
Proof.
  unfold kinds_created. induction 1 as [|e l He _ IH]; simpl; [reflexivity|].
  rewrite IH. now destruct e.
Qed.

Lemma removal_calls_kinds (exp : value) :
  kinds_removed (removal_calls exp) = kind_of_unit exp /\
  kinds_created (removal_calls exp) = [].
Proof.
  unfold removal_calls, kind_of_unit. now destruct (has_default exp).
Qed.

Lemma remove_unit_nullish (exp : value) (s : state) :
  nullish exp = true -> exists e, remove_unit exp s = ([], s, Err e).
Proof.
  intros Hn. unfold remove_unit.
  destruct exp; try discriminate; simpl; eexists; reflexivity.
Qed.

Lemma nullish_no_kind (exp : value) : nullish exp = true -> kind_of_unit exp = [].
Proof. destruct exp; try discriminate; reflexivity. Qed.

(** The removal calls made before the loop ends are those owed to the
    units visited, in order. *)
Lemma remove_phase_kinds (units : list value) (s : state) :
  let o := for_each remove_unit units s in
  kinds_created (events_of o) = [] /\
  exists later,
    flat_map kind_of_unit units = kinds_removed (events_of o) ++ later /\
    (result_of o = Ok tt -> later = []).
Proof.
  induction units as [|exp units IH]; simpl.
  - split; [reflexivity|]. now exists [].
  - rewrite bind_run. destruct (nullish exp) eqn:Hn.
    + destruct (remove_unit_nullish exp s Hn) as [e ->]. simpl.
      split; [reflexivity|]. eexists. split; [reflexivity | discriminate].
    + rewrite (remove_unit_run _ _ Hn). cbn [events_of result_of fst snd].
      destruct IH as (Hc & later & Hr & Hok).
      destruct (removal_calls_kinds exp) as [Hk1 Hk2].
      rewrite kinds_created_app, kinds_removed_app, Hk1, Hk2, Hc.
      split; [reflexivity|]. exists later. rewrite Hr, <- app_assoc.
      split; [reflexivity | exact Hok].
Qed.

Section StoreCalls.

Context {ext : Externals}.

Lemma register_kind_kinds (framework : string) (fileName meta kindName : value)
    (exports : obj) (s : state) :
  kinds_created (events_of (register_kind framework fileName meta kindName exports s))
  = [kindName].
Proof.
  assert (Hsetup : forall ds,
            kinds_created (kind_setup framework fileName meta kindName ds) = [kindName]).
  { intros ds. unfold kind_setup. cbn [kinds_created flat_map app].
    change (flat_map _ (map (KindAddDecorator kindName) ds))
      with (kinds_created (map (KindAddDecorator kindName) ds)).
    rewrite kinds_created_none; [reflexivity|].
    apply Forall_forall. intros e He. apply in_map_iff in He.
    now destruct He as (d & <- & _). }
  destruct (for_each_or_empty (get_opt meta "decorators")) as [ds|e] eqn:Hds.
  - rewrite (register_kind_run _ _ _ _ _ ds _ Hds).
    destruct (obj_keys exports) as [|k keys]; cbn [events_of fst];
      rewrite kinds_created_app, Hsetup; [reflexivity|].
    rewrite kinds_created_none; [reflexivity|].
    apply stories_events; [now intros [[]| | | | | | | | |] | reflexivity].
  - rewrite (register_kind_bad_decorators _ _ _ _ _ _ _ Hds). apply Hsetup.
Qed.

(** The registration of one added unit creates the kind of the unit and no
    other; when it creates none although the unit has one, it throws. *)
Lemma load_unit_kinds (framework : string) (cur : exports_map) (seen : list value)
    (u : value) (s : state) :
  let o := load_unit framework cur seen u s in
  kinds_created (events_of o) = kind_of_unit u \/
  (kinds_created (events_of o) = [] /\ exists e, result_of o = Err e).
Proof.
  simpl. destruct (get u "default") as [meta|e] eqn:Hget.
  2:{ right. unfold load_unit. rewrite Hget. simpl. eauto. }
  assert (Hdefault : get_opt u "default" = meta) by (unfold get_opt; now rewrite Hget).
  destruct (truthy meta) eqn:Hmeta.
  2:{ left. unfold load_unit. rewrite Hget.
      rewrite (bind_ok _ _ s s [] meta) by reflexivity. cbn beta.
      rewrite Hmeta. simpl. unfold kind_of_unit, has_default.
      now rewrite Hdefault, Hmeta. }
  destruct (has_title meta) eqn:Htitle.
  2:{ right. rewrite (load_unit_without_title _ _ _ _ _ _ Hget Hmeta Htitle).
      simpl. eauto. }
  left. rewrite (load_unit_run _ _ _ _ _ _ Hget Hmeta Htitle).
  cbn [events_of fst]. rewrite kinds_created_app, register_kind_kinds.
  rewrite kinds_created_none.
  - unfold kind_of_unit, has_default. now rewrite Hdefault, Hmeta.
  - rewrite duplicate_step_run. cbn [events_of fst].
    destruct (set_has seen (get_opt meta "title")); [|constructor].
    apply Forall_app. split; [|repeat constructor].
    unfold notice_events. destruct (warned DuplicateKindDeprecated s);
      repeat constructor.
Qed.

(** The kinds created before the loop ends are those of the units visited,
    in order. *)
Lemma add_phase_kinds (framework : string) (cur : exports_map) (units seen : list value)
    (s : state) :
  let o := for_each_acc (load_unit framework cur) units seen s in
  kinds_removed (events_of o) = [] /\
  exists later,
    flat_map kind_of_unit units = kinds_created (events_of o) ++ later /\
    (forall seen', result_of o = Ok seen' -> later = []).
Proof.
  simpl. split.
  { apply kinds_removed_none. apply add_phase_events.
    - now intros [[]| | | | | | | | |].
    - reflexivity. }
  revert seen s. induction units as [|u units IH]; intros seen s; simpl.
  - now exists [].
  - rewrite bind_run. pose proof (load_unit_kinds framework cur seen u s) as Hu.
    simpl in Hu.
    destruct (load_unit framework cur seen u s) as [[ev s1] [seen1|e]];
      cbn [events_of result_of fst snd] in *.
    + destruct Hu as [Hu|[_ [e He]]]; [|discriminate].
      destruct (IH seen1 s1) as (later & Hl & Hok).
      exists later. rewrite kinds_created_app, Hu, Hl, <- app_assoc.
      split; [reflexivity | exact Hok].
    + destruct Hu as [Hu|[Hu _]]; rewrite Hu.
      * exists (flat_map kind_of_unit units). split; [reflexivity | discriminate].
      * eexists. split; [reflexivity | discriminate].
Qed.

Lemma reconcile_kinds (framework : string) (cur : exports_map) (s : state) :
  let previous := previousExports s in
  let o := reconcile framework cur s in
  (exists later,
     flat_map kind_of_unit (removed previous cur) = kinds_removed (events_of o) ++ later /\
     (result_of o = Ok tt -> later = [])) /\
  (exists later,
     flat_map kind_of_unit (added previous cur) = kinds_created (events_of o) ++ later /\
     (result_of o = Ok tt -> later = [])).
Proof.
  intros previous o. subst o. unfold reconcile.
  rewrite (bind_ok _ _ s s [] (previousExports s)) by reflexivity. cbn beta.
  fold previous. cbn [app]. unfold diff_and_register. rewrite !bind_run.
  destruct (remove_phase_kinds (removed previous cur) s) as (Hc & later & Hr & Hok).
  simpl in Hc, Hr, Hok.
  destruct (for_each remove_unit (removed previous cur) s) as [[evr sr] [[]|e]];
    cbn [events_of state_of result_of fst snd] in *.
  - rewrite (Hok eq_refl), app_nil_r in Hr.
    destruct (add_phase_kinds framework cur (added previous cur) [] sr)
      as (Hrem & later' & Ha & Hok').
    simpl in Hrem, Ha, Hok'.
    destruct (for_each_acc (load_unit framework cur) (added previous cur) [] sr)
      as [[eva sa] [seen'|e]]; cbn [events_of state_of result_of fst snd] in *.
    + unfold modify. cbn [events_of result_of fst snd].
      rewrite !app_nil_r, kinds_removed_app, kinds_created_app, Hrem, Hc, app_nil_r.
      cbn [app]. split.
      * exists []. now rewrite app_nil_r.
      * exists later'. split; [exact Ha|]. intros _. now apply (Hok' seen').
    + rewrite kinds_removed_app, kinds_created_app, Hrem, Hc, app_nil_r. cbn [app].
      split.
      * exists []. rewrite app_nil_r. split; [exact Hr | reflexivity].
      * exists later'. split; [exact Ha | discriminate].
  - rewrite Hc. split.
    + exists later. split; [exact Hr | discriminate].
    + eexists. split; [reflexivity | discriminate].
Qed.

(** C1. A pass against the snapshot P and the current set C (both keyed by
    the identity of the export object) unregisters exactly the units of P
    that are not in C and registers exactly the units of C that are not in
    P: when the pass completes, its [removeStoryKind] calls are those owed
    to the units of P outside C, one per unit that has a default export, in
    order, and its [storiesOf] calls are those of the units of C outside P,
    one per unit that has a default export, in order; when the pass throws,
    the calls made are the first of these. A unit present in both P and C is
    in neither list and causes no call: erasing these units from P and from
    C leaves the calls, the state and the outcome of the removals and
    registrations unchanged, and a pass whose current set has the units of
    the snapshot makes no call at all. *)
Theorem reconcile_visits_exactly_the_difference
    (framework : string) (current : exports_map) (s : state) :
  let previous := previousExports s in
  let o := reconcile framework current s in
  (forall exp, In exp (removed previous current) <->
               In exp (map_keys previous) /\ map_has current exp = false) /\
  (forall exp, In exp (added previous current) <->
               In exp (map_keys current) /\ map_has previous exp = false) /\
  (forall exp, map_has previous exp = true -> map_has current exp = true ->
               ~ In exp (removed previous current) /\
               ~ In exp (added previous current)) /\
  (result_of o = Ok tt ->
     kinds_removed (events_of o) = flat_map kind_of_unit (removed previous current) /\
     kinds_created (events_of o) = flat_map kind_of_unit (added previous current)) /\
  (exists later,
     flat_map kind_of_unit (removed previous current)
       = kinds_removed (events_of o) ++ later) /\
  (exists later,
     flat_map kind_of_unit (added previous current)
       = kinds_created (events_of o) ++ later) /\
  diff_and_register framework previous current s =
    diff_and_register framework (only_removed previous current)
                      (only_added previous current) s /\
  ((forall exp, In exp (map_keys previous) -> map_has current exp = true) ->
   (forall exp, In exp (map_keys current) -> map_has previous exp = true) ->
   events_of o = [] /\ result_of o = Ok tt).
Proof.
  intros previous o.
  destruct (reconcile_kinds framework current s)
    as ((later & Hr & Hrok) & (later' & Ha & Haok)).
  fold previous o in Hr, Hrok, Ha, Haok.
  split; [intros exp; apply removed_spec|].
  split; [intros exp; apply added_spec|].
  split.
  { intros exp Hp Hc. split.
    - rewrite removed_spec. intros [_ H']. congruence.
    - rewrite added_spec. intros [_ H']. congruence. }
  split.
  { intros Hok. rewrite Hr, Ha, (Hrok Hok), (Haok Hok), !app_nil_r. auto. }
  split; [now exists later|]. split; [now exists later'|].
  split.
  - unfold diff_and_register. rewrite removed_erased, added_erased, !bind_run.
    destruct (for_each remove_unit (removed previous current) s) as [[ev s1] [[]|e]];
      [|reflexivity].
    rewrite (for_each_acc_ext
               (load_unit framework (only_added previous current))
               (load_unit framework current)); [reflexivity|].
    intros seen u s0 Hu. apply added_spec in Hu. destruct Hu as [_ Hu].
    unfold load_unit. now rewrite map_get_only_added.
  - intros Hprev Hcur. subst o.
    unfold reconcile, diff_and_register, bind, gets, modify. simpl. fold previous.
    unfold removed, added.
    rewrite (filter_none _ _ (fun x Hx => (f_equal negb (Hprev x Hx)))).
    rewrite (filter_none _ _ (fun x Hx => (f_equal negb (Hcur x Hx)))).
    simpl. auto.
Qed.

End StoreCalls.

(* ================================================================== *)
(** * The entrypoint across reloads *)
(* ================================================================== *)

Section Reloads.

Context {ext : Externals}.

Lemma loadStories_run (loadable : Loadable) (framework : string) (s : state) :
  loadStories loadable framework s =
  match result_of (collect_exports loadable s) with
  | Ok cur =>
      (events_of (collect_exports loadable s) ++ events_of (reconcile framework cur s),
       state_of (reconcile framework cur s), result_of (reconcile framework cur s))
  | Err e => (events_of (collect_exports loadable s), s, Err e)
  end.
Proof.
  unfold loadStories. rewrite bind_run.
  destruct (collect_exports_quiet loadable s) as [Hs _].
  destruct (collect_exports loadable s) as [[ev s1] [cur|e]]; simpl in *; now subst.
Qed.

Lemma collect_exports_state_free (loadable : Loadable) (s s' : state) :
  events_of (collect_exports loadable s) = events_of (collect_exports loadable s') /\
  result_of (collect_exports loadable s) = result_of (collect_exports loadable s').
Proof.
  destruct loadable as [reqs|req|call]; cbn [collect_exports].
  - now rewrite !load_reqs_run.
  - now rewrite !load_reqs_run.
  - simpl. destruct call as [exported|e]; [|split; reflexivity].
    rewrite (bind_ok _ _ s s [] exported), (bind_ok _ _ s' s' [] exported) by reflexivity.
    simpl. unfold load_exported.
    destruct exported; simpl; try (split; reflexivity).
    + destruct b; split; reflexivity.
    + destruct (negb (n =? 0)%Z); split; reflexivity.
    + destruct (negb (s0 =? "")); split; reflexivity.
    + destruct (every_has_default items) as [[]|e]; split; reflexivity.
Qed.

Lemma reconcile_unchanged (framework : string) (cur : exports_map) (s : state) :
  previousExports s = cur -> reconcile framework cur s = ([], s, Ok tt).
Proof.
  intros Hprev.
  assert (Hs : set_previousExports cur s = s) by (rewrite <- Hprev; now destruct s).
  unfold reconcile.
  rewrite (bind_ok _ _ s s [] (previousExports s)) by reflexivity. cbn beta.
  rewrite Hprev. unfold diff_and_register.
  destruct (nothing_changed cur) as [-> ->]. simpl.
  unfold bind, ret, modify. simpl. now rewrite Hs.
Qed.

Lemma reconcile_from_empty (framework : string) (cur : exports_map) (s : state) :
  previousExports s = [] ->
  events_of (reconcile framework cur s) =
  events_of (for_each_acc (load_unit framework cur) (map_keys cur) [] s).
Proof.
  intros Hprev. unfold reconcile.
  rewrite (bind_ok _ _ s s [] (previousExports s)) by reflexivity. cbn beta.
  rewrite Hprev. unfold diff_and_register.
  rewrite removed_to_empty_snapshot, added_from_empty. simpl.
  unfold bind, ret, modify. simpl.
  destruct (for_each_acc (load_unit framework cur) (map_keys cur) [] s)
    as [[ev s1] [seen|e]]; simpl; now rewrite ?app_nil_r.
Qed.

Lemma prologue_events_count (p : event -> bool) (m : NodeModule) (show : bool)
    (s : state) :
  p (ConsoleWarn ConfigureDeprecated) = false ->
  p HotDispose = false -> p HotAccept = false ->
  count_events p (prologue_events m show s) =
  if loaded s && p (LoggerWarn UnexpectedLoadedState) then 1 else 0.
Proof.
  intros Hn Hd Ha. unfold prologue_events. rewrite !count_events_app.
  assert (H1 : count_events p (if show then notice_events ConfigureDeprecated s else []) = 0).
  { destruct show; [now apply notice_events_count | reflexivity]. }
  assert (H2 : count_events p (match m with
                               | ModuleHot _ => [HotDispose; HotAccept]
                               | _ => []
                               end) = 0).
  { destruct m; try reflexivity. rewrite !count_events_cons, Hd, Ha. reflexivity. }
  rewrite H1, H2. destruct (loaded s); simpl; [|reflexivity].
  rewrite count_events_cons. now destruct (p (LoggerWarn UnexpectedLoadedState)).
Qed.

Lemma restored_state_snapshot (data : HotData) (show : bool) (s : state) :
  previousExports (prologue_state (ModuleHot data) show s) = restored_exports data.
Proof. reflexivity. Qed.

Lemma cold_state_snapshot (show : bool) (s : state) :
  previousExports (prologue_state ModuleCold show s) = previousExports s.
Proof.
  unfold prologue_state. simpl. destruct show; [|reflexivity].
  unfold after_notice. now destruct (warned ConfigureDeprecated s).
Qed.

Lemma no_store_call_no_kind (l : list event) :
  Forall (fun e => is_store_call e = false) l ->
  kinds_removed l = [] /\ kinds_created l = [].
Proof.
  intros H. split.
  - apply kinds_removed_none. eapply Forall_impl; [|exact H]. now intros [].
  - apply kinds_created_none. eapply Forall_impl; [|exact H]. now intros [].
Qed.

Lemma prologue_makes_no_store_call (m : NodeModule) (show : bool) (s : state) :
  Forall (fun e => is_store_call e = false) (prologue_events m show s).
Proof.
  unfold prologue_events. rewrite !Forall_app. split; [|split].
  - destruct show; [|constructor]. unfold notice_events.
    destruct (warned ConfigureDeprecated s); repeat constructor.
  - destruct m; repeat constructor.
  - destruct (loaded s); repeat constructor.
Qed.

Lemma prologue_snapshot (m : NodeModule) (show : bool) (s : state) :
  previousExports (prologue_state m show s) = snapshot_for m s.
Proof.
  unfold prologue_state, snapshot_for.
  assert (H : previousExports (if show then after_notice ConfigureDeprecated s else s)
              = previousExports s).
  { destruct show; [|reflexivity]. unfold after_notice.
    now destruct (warned ConfigureDeprecated s). }
  destruct m; simpl; auto.
Qed.

(** C9. When the entrypoint is invoked again with no reload teardown in
    between (the teardown being what clears the loaded flag), the second
    invocation logs the repeated-load warning exactly once, before any call
    to the story store or the client api, and then performs its pass: when
    the invocation completes, it has removed the kinds of the units of its
    snapshot that are not in its current set, created the kinds of the units
    of its current set that are not in its snapshot, one [storiesOf] call
    per unit with a default export, in order, and recorded the current set;
    when the pass throws, the kinds created are the first of these. *)
Theorem repeated_load_warns_once
    (framework1 framework2 : string) (loadable1 loadable2 : Loadable)
    (m1 m2 : NodeModule) (show1 show2 : bool) (s0 : state) (cur2 : exports_map) :
  rejected_module m1 = false -> rejected_module m2 = false ->
  let s1 := state_of (loadCsf framework1 loadable1 m1 show1 s0) in
  let second := loadCsf framework2 loadable2 m2 show2 s1 in
  let snapshot := snapshot_for m2 s1 in
  result_of (collect_exports loadable2 s1) = Ok cur2 ->
  count_events is_repeated_load_warning (events_of second) = 1 /\
  (exists before after,
     events_of second = before ++ LoggerWarn UnexpectedLoadedState :: after /\
     count_events is_store_call before = 0) /\
  (result_of second = Ok tt ->
     kinds_removed (events_of second) = flat_map kind_of_unit (removed snapshot cur2) /\
     kinds_created (events_of second) = flat_map kind_of_unit (added snapshot cur2) /\
     previousExports (state_of second) = cur2) /\
  (exists later,
     flat_map kind_of_unit (added snapshot cur2)
       = kinds_created (events_of second) ++ later) /\
  loaded (state_of second) = true.
Proof.
  intros Hm1 Hm2 s1 second snapshot Hcur.
  assert (Hloaded : loaded s1 = true) by now apply loadCsf_sets_loaded.
  assert (Hagain : loaded (state_of second) = true) by now apply loadCsf_sets_loaded.
  subst second. rewrite (loadCsf_run _ _ _ _ _ Hm2) in *.
  cbn [events_of state_of result_of fst snd] in *.
  set (ps := prologue_state m2 show2 s1) in *.
  assert (Hsnap : previousExports ps = snapshot) by apply prologue_snapshot.
  destruct (collect_exports_state_free loadable2 ps s1) as [_ Hres].
  destruct (collect_exports_quiet loadable2 ps) as [_ Hquiet].
  assert (Hcollect : Forall (fun e => is_store_call e = false)
                       (events_of (collect_exports loadable2 ps))).
  { eapply Forall_impl; [|exact Hquiet]. now intros [[]| | | | | | | | |]. }
  pose proof (prologue_makes_no_store_call m2 show2 s1) as Hpro.
  destruct (no_store_call_no_kind _ Hpro) as [Hpr Hpc].
  destruct (no_store_call_no_kind _ Hcollect) as [Hcr Hcc].
  destruct (reconcile_kinds framework2 cur2 ps)
    as ((later & Hr & Hrok) & (later' & Ha & Haok)).
  rewrite Hsnap in Hr, Ha.
  assert (Hpass : Forall (fun e => is_repeated_load_warning e = false)
                    (events_of (loadStories loadable2 framework2 ps))).
  { apply pass_events; [now intros [[]| | | | | | | | |] | reflexivity]. }
  rewrite loadStories_run in *. rewrite Hres, Hcur in *.
  cbn [events_of state_of result_of fst snd] in *.
  split; [|split; [|split; [|split; [|exact Hagain]]]].
  - rewrite count_events_app, prologue_events_count by reflexivity.
    rewrite Hloaded. simpl. rewrite count_events_none; [reflexivity | exact Hpass].
  - unfold prologue_events. rewrite Hloaded.
    exists ((if show2 then notice_events ConfigureDeprecated s1 else [])
            ++ match m2 with ModuleHot _ => [HotDispose; HotAccept] | _ => [] end).
    eexists. split; [rewrite <- !app_assoc; reflexivity|].
    rewrite count_events_app.
    assert (H1 : count_events is_store_call
                   (if show2 then notice_events ConfigureDeprecated s1 else []) = 0).
    { destruct show2; [now apply notice_events_count | reflexivity]. }
    rewrite H1. now destruct m2.
  - intros Hok.
    rewrite !kinds_removed_app, !kinds_created_app, Hpr, Hpc, Hcr, Hcc. cbn [app].
    rewrite Hr, Ha, (Hrok Hok), (Haok Hok), !app_nil_r.
    split; [reflexivity|]. split; [reflexivity|].
    rewrite reconcile_snapshot, Hok. reflexivity.
  - exists later'. rewrite !kinds_created_app, Hpc, Hcc. exact Ha.
Qed.

(** X9. The snapshot survives a hot reload: when the dispose callback runs
    and the entrypoint is then invoked with the module whose [hot.data] is
    what the callback stored, the pass runs against the snapshot the module
    had before the teardown, and no repeated-load warning is logged. *)
Theorem teardown_then_reload (framework : string) (loadable : Loadable)
    (show : bool) (s : state) :
  let s' := fst (dispose_callback s) in
  let m := ModuleHot (snd (dispose_callback s)) in
  let o := loadCsf framework loadable m show s' in
  let pass := loadStories loadable framework (prologue_state m show s') in
  previousExports (prologue_state m show s') = previousExports s /\
  events_of o = prologue_events m show s' ++ events_of pass /\
  count_events is_repeated_load_warning (events_of o) = 0 /\
  state_of o = state_of pass /\
  result_of o = result_of pass.
Proof.
  intros s' m o pass. subst o pass.
  rewrite (loadCsf_run framework loadable m show s' eq_refl).
  cbn [events_of state_of result_of fst snd].
  split; [reflexivity|]. split; [reflexivity|]. split; [|split; reflexivity].
  rewrite count_events_app, prologue_events_count by reflexivity.
  rewrite count_events_none; [reflexivity|].
  apply pass_events; [now intros [[]| | | | | | | | |] | reflexivity].
Qed.

(** X10. A hot module that brings no stored snapshot (no [hot.data], or
    data without [previousExports]) starts from the empty snapshot whatever
    the module remembered: the invocation makes no [removeStoryKind] call,
    and every unit of the current set counts as added. *)
Theorem fresh_hot_module_removes_nothing (framework : string) (loadable : Loadable)
    (data : HotData) (show : bool) (s : state) :
  restored_exports data = [] ->
  let o := loadCsf framework loadable (ModuleHot data) show s in
  count_events is_remove_call (events_of o) = 0 /\
  previousExports (prologue_state (ModuleHot data) show s) = [] /\
  (forall cur, added (previousExports (prologue_state (ModuleHot data) show s)) cur
               = map_keys cur).
Proof.
  intros Hdata o. subst o.
  assert (Hprev : previousExports (prologue_state (ModuleHot data) show s) = []).
  { now rewrite restored_state_snapshot. }
  split; [|split; [exact Hprev | intros cur; rewrite Hprev; apply added_from_empty]].
  rewrite (loadCsf_run framework loadable (ModuleHot data) show s eq_refl).
  cbn [events_of fst]. rewrite count_events_app, prologue_events_count by reflexivity.
  rewrite Bool.andb_false_r. simpl.
  rewrite loadStories_run.
  destruct (collect_exports_quiet loadable (prologue_state (ModuleHot data) show s))
    as [_ Hquiet].
  assert (Hc : count_events is_remove_call
                 (events_of (collect_exports loadable
                               (prologue_state (ModuleHot data) show s))) = 0).
  { apply count_events_none. eapply Forall_impl; [|exact Hquiet].
    now intros [[]| | | | | | | | |]. }
  destruct (result_of (collect_exports loadable _)) as [cur|e];
    cbn [events_of fst]; [|exact Hc].
  rewrite count_events_app, Hc, (reconcile_from_empty _ _ _ Hprev). simpl.
  apply count_events_none. apply add_phase_events.
  - now intros [[]| | | | | | | | |].
  - reflexivity.
Qed.

(** X11. A module argument that is a string is rejected before anything is
    loaded: the invocation throws the invalid-module error, makes no call
    to the story store or the client api, and leaves the loaded flag and the
    snapshot as they were; only the deprecation notice of [configure] may
    have been printed. *)
Theorem string_module_is_rejected (framework : string) (loadable : Loadable)
    (name : string) (show : bool) (s : state) :
  let o := loadCsf framework loadable (ModuleString name) show s in
  result_of o = Err (InvalidModule name) /\
  events_of o = (if show then notice_events ConfigureDeprecated s else []) /\
  count_events is_store_call (events_of o) = 0 /\
  loaded (state_of o) = loaded s /\
  previousExports (state_of o) = previousExports s.
Proof.
  intros o. subst o. unfold loadCsf.
  assert (H1 : (if show then configureDeprecationWarning else ret tt) s =
               (if show then notice_events ConfigureDeprecated s else [],
                if show then after_notice ConfigureDeprecated s else s, Ok tt)).
  { destruct show; [|reflexivity].
    unfold configureDeprecationWarning. rewrite deprecate_run. simpl.
    now rewrite app_nil_r. }
  rewrite (bind_ok _ _ _ _ _ _ H1). simpl. rewrite app_nil_r.
  split; [reflexivity|]. split; [reflexivity|]. split; [|split].
  - destruct show; [|reflexivity]. now apply notice_events_count.
  - destruct show; [apply after_notice_loaded | reflexivity].
  - destruct show; [|reflexivity]. unfold after_notice.
    now destruct (warned ConfigureDeprecated s).
Qed.

(** X12. Invoking the entrypoint again with the same loadable and no
    reload module, after an invocation that completed, registers and removes
    nothing: the module kept its snapshot, and the second invocation only
    logs (the repeated-load warning and the warnings of the loading phase). *)
Theorem reloading_the_same_files (framework framework' : string)
    (loadable : Loadable) (show show' : bool) (s : state) :
  let first := loadCsf framework loadable ModuleCold show s in
  let second := loadCsf framework' loadable ModuleCold show' (state_of first) in
  result_of first = Ok tt ->
  count_events is_store_call (events_of second) = 0 /\
  count_events is_repeated_load_warning (events_of second) = 1 /\
  result_of second = Ok tt /\
  previousExports (state_of second) = previousExports (state_of first).
Proof.
  intros first second Hok. subst first second.
  rewrite (loadCsf_run framework loadable ModuleCold show s eq_refl) in *.
  cbn [events_of state_of result_of fst snd] in *.
  set (s0 := prologue_state ModuleCold show s) in *.
  rewrite loadStories_run in *.
  destruct (collect_exports_quiet loadable s0) as [_ Hq0].
  destruct (result_of (collect_exports loadable s0)) as [cur|e] eqn:Hcur;
    cbn [events_of state_of result_of fst snd] in *; [|discriminate].
  set (s1 := state_of (reconcile framework cur s0)) in *.
  assert (Hprev : previousExports s1 = cur).
  { subst s1. rewrite reconcile_snapshot, Hok. reflexivity. }
  assert (Hloaded : loaded s1 = true).
  { subst s1. unfold reconcile.
    rewrite (bind_ok _ _ s0 s0 [] (previousExports s0)) by reflexivity. cbn beta.
    rewrite bind_run.
    pose proof (diff_and_register_keeps framework (previousExports s0) cur s0) as [_ Hl].
    destruct (diff_and_register framework (previousExports s0) cur s0)
      as [[ev sx] [seen|e]]; simpl in *; rewrite Hl; reflexivity. }
  rewrite (loadCsf_run framework' loadable ModuleCold show' s1 eq_refl).
  cbn [events_of state_of result_of fst snd].
  set (s2 := prologue_state ModuleCold show' s1).
  assert (Hprev2 : previousExports s2 = cur).
  { subst s2. now rewrite cold_state_snapshot. }
  rewrite loadStories_run.
  destruct (collect_exports_state_free loadable s2 s0) as [Hev Hres].
  rewrite Hres, Hcur. cbn [events_of state_of result_of fst snd].
  rewrite (reconcile_unchanged framework' cur s2 Hprev2).
  cbn [events_of state_of result_of fst snd]. rewrite app_nil_r.
  assert (Hc : forall p, (forall e, collect_event e -> p e = false) ->
                 count_events p (events_of (collect_exports loadable s2)) = 0).
  { intros p Hp. apply count_events_none. rewrite Hev.
    eapply Forall_impl; [|exact Hq0]. exact Hp. }
  split; [|split; [|split]].
  - rewrite count_events_app, prologue_events_count by reflexivity.
    rewrite Bool.andb_false_r. apply Hc. now intros [[]| | | | | | | | |].
  - rewrite count_events_app, prologue_events_count by reflexivity.
    rewrite Hloaded. simpl. rewrite Hc; [reflexivity|].
    now intros [[]| | | | | | | | |].
  - reflexivity.
  - now rewrite Hprev2, Hprev.
Qed.

End Reloads.

(** Every [deprecate] wrapper prints at most once, whatever is invoked. *)
Lemma loadCsf_any_notice_once {ext : Externals} (d : deprecation) (framework : string)
    (loadable : Loadable) (m : NodeModule) (show : bool) (s : state) :
  let o := loadCsf framework loadable m show s in
  count_events (is_notice d) (events_of o) + Nat.b2n (warned d s)
  <= Nat.b2n (warned d (state_of o)).
Proof.
  apply (respects_loadCsf
           (fun s0 ev s1 =>
              count_events (is_notice d) ev + Nat.b2n (warned d s0)
              <= Nat.b2n (warned d s1)))
    with (ok := fun e => is_notice d e = false).
  - intros s0. simpl. lia.
  - intros s0 ev s1 ev' s2 H1 H2. rewrite count_events_app. lia.
  - intros e s0 He. rewrite count_events_cons, He. simpl. lia.
  - intros d' s0 Hw. rewrite count_events_cons.
    destruct d, d'; simpl in *; try rewrite Hw; simpl; lia.
  - now intros [[]| | | | | | | | |].
  - intros m0 s0. destruct d; simpl; lia.
  - repeat split.
  - intros b s0. destruct d; simpl; lia.
Qed.

(** X13. Over the whole life of the process (invocations of the entrypoint
    with any arguments, interleaved with reload teardowns), each of the three
    deprecation notices is printed at most once, and a notice that was
    printed is never forgotten: neither a pass nor a teardown clears the
    flag of a wrapper. *)
Theorem every_notice_prints_once (d : deprecation) (acts : list action)
    (registered : bool) (s : state) :
  let ev := fst (run_lifetime acts registered s) in
  let s' := snd (run_lifetime acts registered s) in
  count_events (is_notice d) ev + Nat.b2n (warned d s) <= Nat.b2n (warned d s') /\
  count_events (is_notice d) ev <= 1 /\
  (warned d s = true -> warned d s' = true /\ count_events (is_notice d) ev = 0).
Proof.
  assert (H : forall acts registered s,
            count_events (is_notice d) (fst (run_lifetime acts registered s))
            + Nat.b2n (warned d s)
            <= Nat.b2n (warned d (snd (run_lifetime acts registered s)))).
  { clear. intros acts.
    induction acts as [|[ext' framework loadable m show|] acts IH];
      intros registered s; simpl.
    - lia.
    - pose proof (@loadCsf_any_notice_once ext' d framework loadable m show s) as H1.
      simpl in H1.
      specialize (IH (registered || registers_dispose m)
                     (state_of (loadCsf framework loadable m show s))).
      destruct (run_lifetime acts _ _) as [ev s']. simpl in *.
      rewrite count_events_app. lia.
    - destruct registered; [|apply IH].
      specialize (IH false (fst (dispose_callback s))).
      assert (Hw : warned d (fst (dispose_callback s)) = warned d s)
        by now destruct d.
      rewrite Hw in IH. exact IH. }
  intros ev s'. specialize (H acts registered s). fold ev s' in H.
  split; [exact H|]. split.
  - destruct (warned d s'); simpl in H; lia.
  - intros Hw. rewrite Hw in H. simpl in H.
    destruct (warned d s'); simpl in H; [split; [reflexivity | lia] | lia].
Qed.

(* ================================================================== *)
(** * The named exports of one file *)
(* ================================================================== *)

Lemma obj_set_fresh (o : obj) (k : string) (v : value) :
  str_mem k (obj_keys o) = false -> obj_set o k v = o ++ [(k, v)].
Proof.
  unfold str_mem, obj_keys. induction o as [|[k0 v0] o IH]; simpl; intros Hk.
  - reflexivity.
  - apply Bool.orb_false_iff in Hk. destruct Hk as [Hk0 Hk].
    rewrite (String.eqb_sym k0 k), Hk0. now rewrite IH.
Qed.

Lemma obj_lookup_NoDup (o : obj) (k : string) (v : value) :
  NoDup (obj_keys o) -> In (k, v) o -> obj_lookup k o = Some v.
Proof.
  unfold obj_keys. induction o as [|[k0 v0] o IH]; simpl; intros Hnd Hin; [contradiction|].
  inversion Hnd as [|? ? Hk0 Hnd']; subst.
  destruct Hin as [[= -> ->]|Hin].
  - now rewrite String.eqb_refl.
  - destruct (k0 =? k) eqn:E; [|now apply IH].
    apply String.eqb_eq in E. subst k0. exfalso. apply Hk0.
    apply in_map_iff. now exists (k, v).
Qed.

Lemma str_mem_false (k : string) (l : list string) :
  ~ In k l -> str_mem k l = false.
Proof.
  intros Hk. unfold str_mem. destruct (existsb (String.eqb k) l) eqn:E; [|reflexivity].
  apply existsb_exists in E. destruct E as (x & Hx & Hkx).
  apply String.eqb_eq in Hkx. now subst x.
Qed.

(** Copying the properties of an object with distinct keys into a fresh
    object keeps their order and their values. *)
Lemma copy_fold_fresh (src : obj) (excluded : list string) (l acc : obj) :
  (forall k v, In (k, v) l -> obj_lookup k src = Some v) ->
  NoDup (obj_keys l) ->
  (forall k, In k (obj_keys l) -> str_mem k (obj_keys acc) = false) ->
  fold_left
    (fun acc k =>
       if str_mem k excluded then acc
       else match obj_lookup k src with
            | Some v => obj_set acc k v
            | None => acc
            end) (obj_keys l) acc =
  acc ++ filter (fun kv => negb (str_mem (fst kv) excluded)) l.
Proof.
  revert acc. induction l as [|[k v] l IH]; intros acc Hsrc Hnd Hfresh; simpl.
  - now rewrite app_nil_r.
  - unfold obj_keys in Hnd. simpl in Hnd. inversion Hnd as [|? ? Hk Hnd']; subst.
    destruct (str_mem k excluded) eqn:Hex; simpl.
    + apply IH; auto.
      * intros k' v' Hin. apply Hsrc. now right.
      * intros k' Hk'. apply Hfresh. now right.
    + rewrite (Hsrc k v (or_introl eq_refl)).
      rewrite obj_set_fresh by (apply Hfresh; now left).
      rewrite IH; auto.
      * now rewrite <- app_assoc.
      * intros k' v' Hin. apply Hsrc. now right.
      * intros k' Hk'. unfold obj_keys. rewrite map_app. fold (obj_keys acc).
        rewrite str_mem_app, (Hfresh k' (or_intror Hk')). simpl.
        rewrite Bool.orb_false_r. apply String.eqb_neq. intros ->. now apply Hk.
Qed.

Lemma obj_keys_filter (p : string -> bool) (o : obj) :
  obj_keys (filter (fun kv => p (fst kv)) o) = filter p (obj_keys o).
Proof.
  unfold obj_keys. induction o as [|[k v] o IH]; simpl.
  - reflexivity.
  - destruct (p k); simpl; now rewrite IH.
Qed.

Section NamedExports.

Context {ext : Externals}.

(** X14. Without an order hint (no [__namedExportsOrder], or one that is
    not an array), the exports that are processed are all the own properties
    of the file's export object except [default] and [__namedExportsOrder],
    with their values, in the enumeration order of the object. *)
Theorem natural_order_of_named_exports (fileExports : value) :
  NoDup (obj_keys (own_props fileExports)) ->
  (forall a names, get_opt fileExports "__namedExportsOrder" <> VArr a names) ->
  story_exports fileExports =
    filter (fun kv => negb (str_mem (fst kv) ["default"; "__namedExportsOrder"]))
           (own_props fileExports) /\
  obj_keys (story_exports fileExports) =
    filter (fun k => negb (str_mem k ["default"; "__namedExportsOrder"]))
           (obj_keys (own_props fileExports)).
Proof.
  intros Hnd Horder.
  assert (Hnamed : named_exports fileExports =
            filter (fun kv => negb (str_mem (fst kv) ["default"; "__namedExportsOrder"]))
                   (own_props fileExports)).
  { unfold named_exports, copy_props.
    rewrite (copy_fold_fresh (own_props fileExports) _ (own_props fileExports) []);
      auto.
    intros k v Hin. now apply obj_lookup_NoDup. }
  assert (Hse : story_exports fileExports = named_exports fileExports).
  { unfold story_exports.
    destruct (get_opt fileExports "__namedExportsOrder") eqn:E; try reflexivity.
    exfalso. now apply (Horder a items). }
  rewrite Hse, Hnamed. split; [reflexivity|].
  apply (obj_keys_filter
           (fun k => negb (str_mem k ["default"; "__namedExportsOrder"]))).
Qed.



Lemma added_stories_app (l1 l2 : list event) :
  added_stories (l1 ++ l2) = added_stories l1 ++ added_stories l2.
Proof. unfold added_stories. apply flat_map_app. Qed.

Lemma added_stories_none (l : list event) :
  Forall (fun e => is_kind_add e = false) l -> added_stories l = [].
Proof.
  unfold added_stories. induction 1 as [|e l He _ IH]; simpl; [reflexivity|].
  rewrite IH. now destruct e.
Qed.

Lemma register_story_outcome (kindName meta : value) (exports : obj) (key : string)
    (s : state) :
  result_of (register_story kindName meta exports key s) = Ok tt ->
  added_stories (events_of (register_story kindName meta exports key s)) =
  if isExportStory key meta then [obj_get exports key] else [].
Proof.
  destruct (isExportStory key meta) eqn:Hrec.
  2:{ unfold register_story. rewrite Hrec. reflexivity. }
  destruct (get (obj_get exports key) "story") as [story|e0] eqn:Hstory.
  2:{ unfold register_story. rewrite Hrec, Hstory. discriminate. }
  destruct (iterate_or_empty (get_opt (obj_get exports key) "decorators"))
    as [own|e0] eqn:Hown.
  2:{ unfold register_story. rewrite Hrec, Hstory.
      rewrite (bind_ok _ _ s s [] story) by reflexivity. cbn beta.
      rewrite Hown. discriminate. }
  destruct (iterate_or_empty (get_opt story "decorators")) as [legacy|e0] eqn:Hlegacy.
  2:{ unfold register_story. rewrite Hrec, Hstory.
      rewrite (bind_ok _ _ s s [] story) by reflexivity. cbn beta.
      rewrite Hown. rewrite (bind_ok _ _ s s [] own) by reflexivity. cbn beta.
      rewrite Hlegacy. discriminate. }
  rewrite (register_story_run _ _ _ _ _ _ _ _ Hrec Hstory Hown Hlegacy).
  intros _. cbn [events_of fst]. rewrite added_stories_app.
  rewrite added_stories_none; [reflexivity|].
  destruct (truthy story); [|constructor].
  constructor; [reflexivity|]. unfold notice_events.
  destruct (warned StoryAnnotationDeprecated s); repeat constructor.
Qed.

Lemma stories_outcome (kindName meta : value) (exports : obj) (keys : list string)
    (s : state) :
  result_of (for_each (register_story kindName meta exports) keys s) = Ok tt ->
  added_stories (events_of (for_each (register_story kindName meta exports) keys s)) =
  map (obj_get exports) (filter (fun key => isExportStory key meta) keys).
Proof.
  revert s. induction keys as [|key keys IH]; intros s; simpl.
  - reflexivity.
  - rewrite bind_run.
    pose proof (register_story_outcome kindName meta exports key s) as Hone.
    destruct (register_story kindName meta exports key s) as [[ev s1] [[]|e]];
      cbn [events_of result_of fst snd] in *; [|discriminate].
    intros Hrest. rewrite added_stories_app, (IH _ Hrest), (Hone eq_refl).
    now destruct (isExportStory key meta).
Qed.

(** X16. When the registration of an added file completes, the story
    functions handed to [kind.add] are exactly the values of the file's
    recognized exports, one call each, in the order of the processed keys. *)
Theorem completed_unit_registers_recognized_exports (framework : string)
    (cur : exports_map) (seen seen' : list value) (unit meta : value) (s : state) :
  get unit "default" = Ok meta -> truthy meta = true -> has_title meta = true ->
  result_of (load_unit framework cur seen unit s) = Ok seen' ->
  added_stories (events_of (load_unit framework cur seen unit s)) =
    map (obj_get (story_exports unit)) (recognized_entries unit) /\
  count_events is_kind_add (events_of (load_unit framework cur seen unit s)) =
    List.length (recognized_entries unit).
Proof.
  intros Hget Hmeta Htitle.
  assert (Hcount : forall ev, count_events is_kind_add ev = List.length (added_stories ev)).
  { intros ev. unfold count_events, added_stories.
    induction ev as [|e ev IH]; simpl; [reflexivity|].
    rewrite length_app, <- IH. now destruct e. }
  intros Hok.
  assert (Hstories : added_stories (events_of (load_unit framework cur seen unit s)) =
                     map (obj_get (story_exports unit)) (recognized_entries unit)).
  { revert Hok. rewrite (load_unit_run _ _ _ _ _ _ Hget Hmeta Htitle).
    cbn [events_of result_of fst snd].
    set (kindName := get_opt meta "title").
    set (s1 := state_of (duplicate_step seen kindName s)).
    destruct (for_each_or_empty (get_opt meta "decorators")) as [ds|err] eqn:Hds.
    2:{ rewrite (register_kind_bad_decorators _ _ _ _ _ err _ Hds). discriminate. }
    rewrite (register_kind_run _ _ _ _ _ ds _ Hds).
    assert (Hpre : added_stories (events_of (duplicate_step seen kindName s)) = []).
    { rewrite duplicate_step_run. cbn [events_of fst].
      destruct (set_has seen kindName); [|reflexivity].
      apply added_stories_none. apply Forall_app. split; [|repeat constructor].
      unfold notice_events. destruct (warned DuplicateKindDeprecated s);
        repeat constructor. }
    assert (Hsetup : added_stories
                       (kind_setup framework (map_get cur unit) meta kindName ds) = []).
    { apply added_stories_none. unfold kind_setup. repeat constructor.
      apply Forall_forall. intros e He. apply in_map_iff in He.
      now destruct He as (d & <- & _). }
    assert (Hdefault : get_opt unit "default" = meta)
      by (unfold get_opt; now rewrite Hget).
    unfold recognized_entries. rewrite Hdefault.
    destruct (obj_keys (story_exports unit)) as [|k keys] eqn:Hkeys;
      cbn [events_of result_of fst snd].
    - intros _. now rewrite !added_stories_app, Hpre, Hsetup.
    - intros Hok. rewrite !added_stories_app, Hpre, Hsetup. cbn [app].
      apply (stories_outcome kindName meta (story_exports unit) (k :: keys) s1).
      destruct (result_of (for_each _ (k :: keys) s1)) as [[]|e];
        [reflexivity | discriminate]. }
  split; [exact Hstories|].
  now rewrite Hcount, Hstories, length_map.
Qed.

(** X17. A recognized export whose value is [null] or [undefined] makes the
    registration throw a TypeError at the point where its [story] annotation
    is read: the kind is set up already and the exports before it are
    registered, nothing after it is, and the error leaves through the unit.
    An export that is not recognized is skipped without being read. *)
Theorem null_export_aborts_registration (framework : string) (fileName meta kindName : value)
    (exports : obj) (ds : list value) (before after : list string) (key : string)
    (s : state) :
  let stories := for_each (register_story kindName meta exports) before s in
  for_each_or_empty (get_opt meta "decorators") = Ok ds ->
  obj_keys exports = before ++ key :: after ->
  result_of stories = Ok tt ->
  isExportStory key meta = true ->
  nullish (obj_get exports key) = true ->
  register_kind framework fileName meta kindName exports s =
    (kind_setup framework fileName meta kindName ds ++ events_of stories,
     state_of stories, Err (TypeError "Cannot read property story")) /\
  (forall key' s', isExportStory key' meta = false ->
     register_story kindName meta exports key' s' = ([], s', Ok tt)).
Proof.
  intros stories Hds Hkeys Hok Hrec Hnull. split.
  - rewrite (register_kind_run _ _ _ _ _ ds _ Hds), Hkeys.
    assert (Hone : forall s', register_story kindName meta exports key s' =
                     ([], s', Err (TypeError "Cannot read property story"))).
    { intros s'. unfold register_story. rewrite Hrec.
      destruct (obj_get exports key); try discriminate; reflexivity. }
    assert (Hall : for_each (register_story kindName meta exports)
                     (before ++ key :: after) s =
                   (events_of stories, state_of stories,
                    Err (TypeError "Cannot read property story"))).
    { rewrite for_each_app, bind_run. subst stories.
      destruct (for_each (register_story kindName meta exports) before s)
        as [[ev s1] [[]|e]]; cbn [events_of state_of result_of fst snd] in *;
        [|discriminate].
      simpl. rewrite bind_run, Hone. simpl. now rewrite app_nil_r. }
    destruct (before ++ key :: after) eqn:E; [now destruct before|].
    rewrite Hall. reflexivity.
  - intros key' s' Hrec'. unfold register_story. now rewrite Hrec'.
Qed.

(** X18. When the [decorators] of a default export are a truthy value that
    is not an array, the registration of the file calls the [forEach] that
    the value has. When it has none that is callable, a TypeError is thrown
    after the kind was created and its parameters were set: no decorator is
    added and no story is registered. When it has one, the values that the
    method hands to the callback are added as decorators after the
    parameters, and an exception that the method throws ends the
    registration there. *)
Theorem non_list_decorators_run_their_forEach (framework : string)
    (cur : exports_map) (seen : list value) (unit meta : value) (s : state) :
  let kindName := get_opt meta "title" in
  let decorators := get_opt meta "decorators" in
  let o := load_unit framework cur seen unit s in
  get unit "default" = Ok meta -> truthy meta = true -> has_title meta = true ->
  truthy decorators = true ->
  (forall a items, decorators <> VArr a items) ->
  (callable (get_opt decorators "forEach") = false ->
     events_of o =
       events_of (duplicate_step seen kindName s)
       ++ [StoriesOf kindName;
           KindAddParameters kindName
             (kind_parameters framework (map_get cur unit) meta)] /\
     result_of o = Err (TypeError "forEach is not a function") /\
     count_events is_kind_add (events_of o) = 0) /\
  (callable (get_opt decorators "forEach") = true ->
     for_each_visits decorators =
       customForEach (get_opt decorators "forEach") decorators /\
     exists rest,
       events_of o =
         events_of (duplicate_step seen kindName s)
         ++ kind_setup framework (map_get cur unit) meta kindName
              (fst (for_each_visits decorators))
         ++ rest /\
       (forall e, snd (for_each_visits decorators) = Some e ->
          rest = [] /\ result_of o = Err e)).
Proof.
  intros kindName decorators o Hget Hmeta Htitle Hd Harr.
  assert (Hvisit : for_each_visits decorators =
                   if callable (get_opt decorators "forEach")
                   then customForEach (get_opt decorators "forEach") decorators
                   else ([], Some (TypeError "forEach is not a function"))).
  { unfold for_each_visits. rewrite Hd.
    destruct decorators eqn:E; try reflexivity.
    exfalso. now apply (Harr a items). }
  subst o. rewrite (load_unit_run _ _ _ _ _ _ Hget Hmeta Htitle).
  fold kindName. cbn [events_of state_of result_of fst snd].
  split.
  - intros Hcall. rewrite Hcall in Hvisit.
    assert (Hds : for_each_or_empty (get_opt meta "decorators") =
                  Err (TypeError "forEach is not a function")).
    { unfold for_each_or_empty. fold decorators. now rewrite Hvisit. }
    rewrite (register_kind_bad_decorators _ _ _ _ _ _ _ Hds).
    fold decorators. rewrite Hvisit.
    cbn [events_of state_of result_of fst snd kind_setup map].
    split; [reflexivity|]. split; [reflexivity|].
    rewrite count_events_app, duplicate_step_run. cbn [events_of fst].
    destruct (set_has seen kindName); [|reflexivity].
    rewrite count_events_app, (notice_events_count is_kind_add) by reflexivity.
    reflexivity.
  - intros Hcall. rewrite Hcall in Hvisit. split; [exact Hvisit|].
    destruct (for_each_or_empty (get_opt meta "decorators")) as [ds|e] eqn:Hds.
    + pose proof Hds as Hds'. unfold for_each_or_empty in Hds'. fold decorators in Hds'.
      destruct (for_each_visits decorators) as [visited [e|]] eqn:Hv; [discriminate|].
      injection Hds' as <-.
      rewrite (register_kind_run _ _ _ _ _ visited _ Hds). cbn [fst snd].
      destruct (obj_keys (story_exports unit)) as [|k keys];
        cbn [events_of state_of result_of fst snd];
        eexists; (split; [reflexivity | discriminate]).
    + rewrite (register_kind_bad_decorators _ _ _ _ _ _ _ Hds).
      fold decorators. cbn [events_of state_of result_of fst snd].
      exists []. rewrite app_nil_r. split; [reflexivity|].
      intros e' He'. split; [reflexivity|].
      unfold for_each_or_empty in Hds. fold decorators in Hds.
      destruct (for_each_visits decorators) as [visited [e0|]]; simpl in *; congruence.
Qed.

(** X19. Files without a default export (old-style files) are invisible to
    a pass: whether they appear, disappear or stay, no call is made for
    them, and a pass that only sees such changes completes and records the
    current set. *)
Theorem old_style_files_are_silent (framework : string) (cur : exports_map)
    (s : state) :
  let previous := previousExports s in
  Forall (fun unit => nullish unit = false /\ has_default unit = false)
         (removed previous cur) ->
  Forall (fun unit => nullish unit = false /\ has_default unit = false)
         (added previous cur) ->
  reconcile framework cur s = ([], set_previousExports cur s, Ok tt).
Proof.
  intros previous Hrem Hadd.
  assert (Hr : for_each remove_unit (removed previous cur) s = ([], s, Ok tt)).
  { rewrite remove_phase_run.
    - f_equal. f_equal. induction Hrem as [|u l [_ Hu] _ IH]; simpl; [reflexivity|].
      unfold removal_calls at 1. now rewrite Hu.
    - eapply Forall_impl; [|exact Hrem]. now intros u [Hu _]. }
  assert (Ha : forall seen, for_each_acc (load_unit framework cur)
                              (added previous cur) seen s = ([], s, Ok seen)).
  { induction Hadd as [|u l [Hn Hu] _ IH]; intros seen; simpl; [reflexivity|].
    assert (Hone : load_unit framework cur seen u s = ([], s, Ok seen)).
    { unfold load_unit. rewrite (get_not_nullish _ _ Hn).
      rewrite (bind_ok _ _ s s [] (get_opt u "default")) by reflexivity. cbn beta.
      unfold has_default in Hu. now rewrite Hu. }
    rewrite (bind_ok _ _ _ _ _ _ Hone), IH. reflexivity. }
  unfold reconcile.
  rewrite (bind_ok _ _ s s [] (previousExports s)) by reflexivity. cbn beta.
  fold previous. unfold diff_and_register.
  rewrite (bind_ok _ _ s s [] []).
  - reflexivity.
  - rewrite (bind_ok _ _ _ _ _ _ Hr), Ha. reflexivity.
Qed.

End NamedExports.

(* ================================================================== *)
(** * The further statements at concrete files *)
(* ================================================================== *)

(** With the snapshot {Alpha, Gamma} and the current set {Alpha, Beta}:
    the kind of Gamma is removed, the kind of Beta is created, and no call
    is made for Alpha. *)
Lemma reconcile_difference_witness :
  let s := set_previousExports exports_alpha_gamma initial_state in
  let o := reconcile (ext := sample_csf) "react" exports_alpha_beta s in
  result_of o = Ok tt /\
  kinds_removed (events_of o) = [VStr "Gamma"] /\
  kinds_created (events_of o) = [VStr "Beta"] /\
  ~ In (titled_file 400 "Alpha") (removed (previousExports s) exports_alpha_beta) /\
  ~ In (titled_file 400 "Alpha") (added (previousExports s) exports_alpha_beta).
Proof.
  intros s o.
  destruct (reconcile_visits_exactly_the_difference (ext := sample_csf)
              "react" exports_alpha_beta s) as (_ & _ & H3 & H4 & _).
  destruct (H4 eq_refl) as [Hr Hc].
  split; [reflexivity|]. split; [exact Hr|]. split; [exact Hc|].
  apply H3; reflexivity.
Defined.

(** The entrypoint is invoked with file Alpha, and again, with no teardown
    in between, with files Alpha and Beta: the second invocation warns once
    and registers Beta. *)
Lemma repeated_load_witness :
  let s1 := state_of (loadCsf (ext := sample_csf) "react"
                              (LoadableContext (context_of files_alpha)) ModuleCold true
                              initial_state) in
  let second := loadCsf (ext := sample_csf) "react"
                        (LoadableContext (context_of files_alpha_beta)) ModuleCold true
                        s1 in
  result_of (collect_exports (ext := sample_csf)
               (LoadableContext (context_of files_alpha_beta)) s1)
    = Ok exports_alpha_beta /\
  result_of second = Ok tt /\
  count_events is_repeated_load_warning (events_of second) = 1 /\
  kinds_removed (events_of second) = [] /\
  kinds_created (events_of second) = [VStr "Beta"] /\
  count_events is_store_call (events_of second) = 3.
Proof.
  intros s1 second.
  destruct (repeated_load_warns_once (ext := sample_csf) "react" "react"
              (LoadableContext (context_of files_alpha))
              (LoadableContext (context_of files_alpha_beta))
              ModuleCold ModuleCold true true initial_state exports_alpha_beta
              eq_refl eq_refl eq_refl) as (H1 & _ & H3 & _).
  destruct (H3 eq_refl) as (Hr & Hc & _).
  split; [reflexivity|]. split; [reflexivity|]. split; [exact H1|].
  split; [exact Hr|]. split; [exact Hc | reflexivity].
Defined.

(** Two filenames that resolve to one export object give one unit, under
    the path set last. *)
Lemma current_exports_distinct_witness :
  let cur := [(button_file 100, VStr "./again.js")] in
  result_of (collect_exports (ext := sample_csf)
               (LoadableContext (context_of aliased_files)) initial_state)
    = Ok cur /\
  distinct_keys (map_keys cur) = true /\
  distinct_keys (added [] cur) = true.
Proof.
  intros cur.
  destruct (current_exports_distinct (ext := sample_csf)
              (LoadableContext (context_of aliased_files))
              initial_state cur eq_refl) as (H1 & H2 & _).
  split; [reflexivity|]. split; [exact H1 | apply H2].
Defined.



(** A loader function that returns two story files, and one that returns a
    story file next to an old-style file. *)
Lemma loader_function_witness :
  collect_exports (ext := sample_csf)
                  (LoadableFunction (Ok (VArr 5 [button_file 100; button_file 200])))
                  initial_state =
    ([], initial_state, Ok [(button_file 100, VNull); (button_file 200, VNull)]) /\
  collect_exports (ext := sample_csf)
                  (LoadableFunction (Ok (VArr 5 [button_file 100; old_style_file])))
                  initial_state =
    ([LoggerWarn (LoaderFunctionMisuse (VArr 5 [button_file 100; old_style_file]))],
     initial_state, Ok []).
Proof.
  destruct (loader_function_result (ext := sample_csf) initial_state) as (_ & H2 & _).
  split.
  - apply (H2 5 [button_file 100; button_file 200]). repeat constructor.
  - apply (H2 5 [button_file 100; old_style_file]). repeat constructor.
Defined.

(** Files A and B, reconciled twice. *)
Lemma second_pass_witness :
  let first := reconcile (ext := sample_csf) "react" exports_AB initial_state in
  result_of first = Ok tt /\
  count_events is_store_call (events_of first) = 6 /\
  reconcile (ext := sample_csf) "react" exports_AB (state_of first) =
    ([], state_of first, Ok tt).
Proof.
  intros first. split; [reflexivity|]. split; [reflexivity|].
  apply (second_pass_is_silent (ext := sample_csf) "react" "react" exports_AB
           initial_state eq_refl).
Defined.

(** File B appears next to file A. *)
Lemma adding_a_file_witness :
  let s := set_previousExports files_A_snapshot initial_state in
  map_has (previousExports s) (button_file 200) = false /\
  count_events (registers_kind "Button")
    (events_of (reconcile (ext := sample_csf) "react"
                  (previousExports s ++ [(button_file 200, VStr "./B.js")]) s)) = 1 /\
  map_get (previousExports s ++ [(button_file 200, VStr "./B.js")]) (button_file 200)
    = VStr "./B.js".
Proof.
  intros s.
  destruct (adding_a_file_registers_only_it (ext := sample_csf) "react"
              (button_file 200) (VStr "./B.js") s eq_refl) as (H1 & H2).
  split; [reflexivity|]. split; [|exact H2].
  rewrite H1. reflexivity.
Defined.

(** File B disappears from between files A and C. *)
Lemma deleting_a_file_witness :
  let s := set_previousExports exports_ABC initial_state in
  let cur := [(button_file 100, VStr "./A.js"); (button_file 300, VStr "./C.js")] in
  distinct_keys (map_keys exports_ABC) = true /\
  reconcile (ext := sample_csf) "react" cur s =
    ([RemoveStoryKind (VStr "Button")], set_previousExports cur s, Ok tt).
Proof.
  intros s cur. split; [reflexivity|].
  apply (deleting_a_file_unregisters_only_it (ext := sample_csf) "react"
           [(button_file 100, VStr "./A.js")] [(button_file 300, VStr "./C.js")]
           (button_file 200) (VStr "./B.js") s eq_refl eq_refl eq_refl).
Defined.

(** A hot module without stored data, invoked while the module remembers
    files A and C. *)
Lemma fresh_hot_module_witness :
  let s := set_previousExports exports_AC initial_state in
  let o := loadCsf (ext := sample_csf) "react" (LoadableContext (context_of files_AB))
                   (ModuleHot NoData) true s in
  restored_exports NoData = [] /\
  count_events is_remove_call (events_of o) = 0 /\
  count_events (registers_kind "Button") (events_of o) = 2.
Proof.
  intros s o.
  destruct (fresh_hot_module_removes_nothing (ext := sample_csf) "react"
              (LoadableContext (context_of files_AB)) NoData true s eq_refl)
    as (H1 & _).
  split; [reflexivity|]. split; [exact H1 | reflexivity].
Defined.

(** Files A and B, loaded twice without a reload module. *)
Lemma reloading_the_same_files_witness :
  let loadable := LoadableContext (context_of files_AB) in
  let first := loadCsf (ext := sample_csf) "react" loadable ModuleCold true initial_state in
  let second := loadCsf (ext := sample_csf) "react" loadable ModuleCold true
                        (state_of first) in
  result_of first = Ok tt /\
  count_events is_store_call (events_of first) = 6 /\
  count_events is_store_call (events_of second) = 0 /\
  result_of second = Ok tt.
Proof.
  intros loadable first second.
  destruct (reloading_the_same_files (ext := sample_csf) "react" "react" loadable
              true true initial_state eq_refl) as (H1 & _ & H3 & _).
  split; [reflexivity|]. split; [reflexivity|]. split; [exact H1 | exact H3].
Defined.

(** A file without order hint. *)
Lemma natural_order_witness :
  NoDup (obj_keys (own_props (button_file 100))) /\
  obj_keys (story_exports (ext := sample_csf) (button_file 100)) = ["Story"].
Proof.
  assert (Hnd : NoDup (obj_keys (own_props (button_file 100)))).
  { repeat constructor; simpl; intuition discriminate. }
  assert (Horder : forall a names,
            get_opt (button_file 100) "__namedExportsOrder" <> VArr a names)
    by discriminate.
  destruct (natural_order_of_named_exports (ext := sample_csf) (button_file 100)
              Hnd Horder) as (_ & H2).
  split; [exact Hnd|]. rewrite H2. reflexivity.
Defined.



Lemma completed_unit_witness :
  let o := load_unit (ext := sample_csf) "react" [(abc_file, VStr "./abc.js")] []
                     abc_file initial_state in
  result_of o = Ok [VStr "Button"] /\
  added_stories (events_of o) = [fn 13 "c"; fn 11 "a"] /\
  count_events is_kind_add (events_of o) = 2.
Proof.
  intros o.
  destruct (completed_unit_registers_recognized_exports (ext := sample_csf) "react"
              [(abc_file, VStr "./abc.js")] [] [VStr "Button"] abc_file
              (VObj 10 [("title", VStr "Button")]) initial_state
              eq_refl eq_refl eq_refl eq_refl) as (H1 & H2).
  split; [reflexivity|]. split.
  - unfold o. rewrite H1. reflexivity.
  - unfold o. rewrite H2. reflexivity.
Defined.

(** Three exports, the second of which is [null]. *)
Lemma null_export_witness :
  let o := register_kind (ext := sample_csf) "react" (VStr "./card.js") card_meta
                         (VStr "Card") exports_with_null initial_state in
  obj_keys exports_with_null = ["Fine"] ++ "Broken" :: ["Later"] /\
  nullish (obj_get exports_with_null "Broken") = true /\
  result_of o = Err (TypeError "Cannot read property story") /\
  added_stories (events_of o) = [fn 91 "Fine"].
Proof.
  intros o.
  destruct (null_export_aborts_registration (ext := sample_csf) "react"
              (VStr "./card.js") card_meta (VStr "Card") exports_with_null []
              ["Fine"] ["Later"] "Broken" initial_state
              eq_refl eq_refl eq_refl eq_refl eq_refl) as (H1 & _).
  split; [reflexivity|]. split; [reflexivity|].
  unfold o. rewrite H1. split; reflexivity.
Defined.

(** A default export whose decorators are an object without [forEach], and
    one whose decorators are an object with a [forEach] of its own. *)
Lemma non_list_decorators_witness :
  let o := load_unit (ext := sample_csf) "react" [(styled_file, VStr "./styled.js")] []
                     styled_file initial_state in
  let o' := load_unit (ext := sample_csf) "react"
                      [(collection_file, VStr "./collection.js")] []
                      collection_file initial_state in
  truthy (get_opt styled_meta "decorators") = true /\
  callable (get_opt (get_opt styled_meta "decorators") "forEach") = false /\
  result_of o = Err (TypeError "forEach is not a function") /\
  count_events (registers_kind "Styled") (events_of o) = 1 /\
  count_events is_kind_add (events_of o) = 0 /\
  callable (get_opt (get_opt collection_meta "decorators") "forEach") = true /\
  for_each_visits (ext := sample_csf) (get_opt collection_meta "decorators")
    = ([fn 135 "first"; fn 136 "second"], None) /\
  result_of o' = Ok [VStr "Collected"] /\
  count_events is_kind_add (events_of o') = 1.
Proof.
  intros o o'.
  assert (Harr : forall a items, get_opt styled_meta "decorators" <> VArr a items)
    by discriminate.
  assert (Harr' : forall a items, get_opt collection_meta "decorators" <> VArr a items)
    by discriminate.
  destruct (non_list_decorators_run_their_forEach (ext := sample_csf) "react"
              [(styled_file, VStr "./styled.js")] [] styled_file styled_meta
              initial_state eq_refl eq_refl eq_refl eq_refl Harr) as (H1 & _).
  destruct (H1 eq_refl) as (E1 & E2 & E3).
  destruct (non_list_decorators_run_their_forEach (ext := sample_csf) "react"
              [(collection_file, VStr "./collection.js")] [] collection_file
              collection_meta initial_state eq_refl eq_refl eq_refl eq_refl Harr')
    as (_ & H2).
  destruct (H2 eq_refl) as (V & _).
  split; [reflexivity|]. split; [reflexivity|]. split; [exact E2|].
  split; [unfold o; rewrite E1; reflexivity|]. split; [exact E3|].
  split; [reflexivity|]. split; [rewrite V; reflexivity|].
  split; reflexivity.
Defined.

(** An old-style file disappears. *)
Lemma old_style_files_witness :
  let s := set_previousExports [(old_style_file, VStr "./old.js")] initial_state in
  Forall (fun unit => nullish unit = false /\ has_default unit = false)
         (removed (previousExports s) []) /\
  reconcile (ext := sample_csf) "react" [] s = ([], set_previousExports [] s, Ok tt).
Proof.
  intros s.
  assert (Hrem : Forall (fun unit => nullish unit = false /\ has_default unit = false)
                        (removed (previousExports s) [])).
  { repeat constructor. }
  split; [exact Hrem|].
  apply (old_style_files_are_silent (ext := sample_csf) "react" [] s Hrem).
  constructor.
Defined.
